(** * Hybrid recommender for an e-commerce catalog

    Shallow embedding of [recommend.py]: the rating matrix built from the
    rating and product records, the two cosine-similarity matrices, the
    item-based, user-based and hybrid scores, and [hybrid_recommend].

    Conventions of the embedding.
    - A float64 is idealised as a real number; rounding is not modelled.
      A NaN is [None] at the places where the code can hold one and tests
      for it (cells of the pivot table, a product's price, the columns a
      left merge could not fill).  Every rating record carries a number.
      Where rounding decides a statement, the similarity computation is
      also given in binary64, see [F64].
    - A pandas [Series] is a list of (label, value) pairs; a [DataFrame]
      carries its row labels, its column labels and its rows.
    - A raised exception is the left injection of [result].
    - The two CSV files are the lists [ratings] and [products], already
      read, with the optional product columns filled in.
    - [sklearn.metrics.pairwise.cosine_similarity] and
      [Series.sort_values] are library code: the first is modelled by its
      algorithm (normalise every row, a norm below ten machine epsilons
      replaced by 1, then take all pairwise dot products), the second by
      its contract, see [SortKind], and by the algorithm behind its
      default, see [Numpy]. *)

From Stdlib Require Import List String Ascii ZArith Reals Lra Lia.
From Stdlib Require Import Permutation Sorted Bool.
From Stdlib Require OrderedTypeEx.
From Stdlib Require PrimFloat Floats.
Import ListNotations.
Open Scope R_scope.

(** ** Exceptions *)

Inductive exn : Type :=
| ValueError (msg : string)
| KeyError (key : string).

Definition result (A : Type) : Type := (exn + A)%type.

Definition ret {A} (a : A) : result A := inr a.

Definition bind {A B} (m : result A) (k : A -> result B) : result B :=
  match m with
  | inl e => inl e
  | inr a => k a
  end.

Notation "x <- m ;; k" := (bind m (fun x => k))
  (at level 61, m at next level, right associativity).

(** ** Numeric vectors (numpy arrays of floats) *)

Module Vec.

Definition sum (v : list R) : R := fold_right Rplus 0 v.

Fixpoint dot (x y : list R) : R :=
  match x, y with
  | a :: x', b :: y' => a * b + dot x' y'
  | _, _ => 0
  end.

Fixpoint zip_with {A B C} (f : A -> B -> C) (l : list A) (m : list B) : list C :=
  match l, m with
  | a :: l', b :: m' => f a b :: zip_with f l' m'
  | _, _ => []
  end.

(** Column [j] of a list of rows. *)
Definition column (j : nat) (M : list (list R)) : list R :=
  map (fun row => nth j row 0) M.

(** The [n] columns of a matrix given by its rows. *)
Definition transpose (n : nat) (M : list (list R)) : list (list R) :=
  map (fun j => column j M) (seq 0 n).

(** [M.dot(v)]: one dot product per row. *)
Definition matvec (M : list (list R)) (v : list R) : list R :=
  map (fun row => dot row v) M.

(** [v.dot(M)] for a matrix of [n] columns: one dot product per column. *)
Definition vecmat (n : nat) (v : list R) (M : list (list R)) : list R :=
  map (fun col => dot v col) (transpose n M).

End Vec.

(** ** Labelled data *)

Definition Series : Type := list (string * R).

Record DataFrame (A : Type) : Type := mkFrame {
  index : list string;
  columns : list string;
  values : list (list A)
}.
Arguments mkFrame {A}.
Arguments index {A}.
Arguments columns {A}.
Arguments values {A}.

(** First value filed under label [k]. *)
Fixpoint loc {A} (labels : list string) (vals : list A) (k : string) : option A :=
  match labels, vals with
  | l :: ls, v :: vs => if String.eqb l k then Some v else loc ls vs k
  | _, _ => None
  end.

Fixpoint index_of (k : string) (labels : list string) : option nat :=
  match labels with
  | [] => None
  | l :: ls => if String.eqb l k then Some O else option_map S (index_of k ls)
  end.

Definition mem (k : string) (labels : list string) : bool :=
  existsb (String.eqb k) labels.

(** [df.loc[k]]: the row labelled [k]. *)
Definition loc_row {A} (df : DataFrame A) (k : string) : result (list A) :=
  match loc (index df) (values df) k with
  | Some row => ret row
  | None => inl (KeyError k)
  end.

(** [df.loc[labels]] for labels taken from the frame's own index. *)
Definition loc_rows {A} (df : DataFrame A) (labels : list string) : list (list A) :=
  map (fun k => match loc (index df) (values df) k with
                | Some row => row
                | None => []
                end) labels.

(** [df[c]]: the column labelled [c], as a series over the row labels. *)
Definition get_column (df : DataFrame R) (c : string) : result Series :=
  match index_of c (columns df) with
  | Some j => ret (combine (index df) (Vec.column j (values df)))
  | None => inl (KeyError c)
  end.

(** [s.drop(k)]. *)
Definition drop (k : string) (s : Series) : Series :=
  filter (fun e => negb (String.eqb (fst e) k)) s.

(** [df.at[r, c]]. *)
Definition at_ {A} (df : DataFrame A) (r c : string) : option A :=
  match loc (index df) (values df) r with
  | Some row => loc (columns df) row c
  | None => None
  end.

Definition value_or_zero (o : option R) : R :=
  match o with
  | Some x => x
  | None => 0
  end.

(** [df.reindex(columns=new_cols, fill_value=fill)]. *)
Definition reindex_columns {A} (df : DataFrame A) (new_cols : list string)
    (fill_value : A) : DataFrame A :=
  mkFrame (index df) new_cols
    (map (fun row =>
            map (fun c => match loc (columns df) row c with
                          | Some v => v
                          | None => fill_value
                          end) new_cols)
         (values df)).

(** [df.fillna(v)]. *)
Definition fillna (df : DataFrame (option R)) (v : R) : DataFrame R :=
  mkFrame (index df) (columns df)
    (map (map (fun c => match c with Some x => x | None => v end)) (values df)).

(** Sorted distinct labels, the order a pivot gives its axes. *)
Fixpoint insert_unique (s : string) (l : list string) : list string :=
  match l with
  | [] => [s]
  | x :: l' =>
      match String.compare s x with
      | Lt => s :: l
      | Eq => l
      | Gt => x :: insert_unique s l'
      end
  end.

Definition sorted_unique (l : list string) : list string :=
  fold_right insert_unique [] l.

(** [s.head(n)], that is [s.iloc[:n]]: a negative [n] drops the last [-n]. *)
Definition head {A} (n : Z) (l : list A) : list A :=
  if (0 <=? n)%Z then firstn (Z.to_nat n) l
  else firstn (List.length l - Z.to_nat (- n)) l.

(** [s[mask]] for a boolean mask over the same index. *)
Definition boolean_index (s : Series) (mask : list bool) : Series :=
  map fst (filter snd (combine s mask)).

Definition Rgtb (x y : R) : bool := if Rlt_dec y x then true else false.
Definition Rleb (x y : R) : bool := if Rle_dec x y then true else false.

(** ** Records of the two data sources *)

Module Rating.
Record t : Type := mk { user : string; product : string; rating : R }.
End Rating.

Module Product.
Record t : Type := mk {
  product : string;
  product_name : string;
  category : string;
  price : option R;
  image : string
}.
End Product.

(** A row of the frame [hybrid_recommend] returns.  The four metadata
    columns are [None] where the left merge found no product. *)
Record Recommendation : Type := mkRec {
  rec_product : string;
  rec_score : R;
  rec_product_name : option string;
  rec_category : option string;
  rec_price : option R;
  rec_image : option string
}.

(** ** sklearn: cosine similarity *)

Module Sklearn.

Definition row_norm (x : list R) : R := sqrt (Vec.dot x x).

(** Machine epsilon of float64, [np.finfo(np.float64).eps]. *)
Definition eps64 : R := / 2 ^ 52.

(** A norm below [10 * eps] is taken as zero and replaced by 1. *)
Definition handle_zeros_in_scale (n : R) : R :=
  if Rlt_dec n (10 * eps64) then 1 else n.

Definition normalize_row (x : list R) : list R :=
  map (fun a => a / handle_zeros_in_scale (row_norm x)) x.

Definition normalize (X : list (list R)) : list (list R) :=
  map normalize_row X.

Definition cosine_similarity (X : list (list R)) : list (list R) :=
  let Xn := normalize X in
  map (fun xi => map (fun xj => Vec.dot xi xj) Xn) Xn.

(** One entry of that matrix, for two rows [x] and [y]. *)
Definition cosine (x y : list R) : R :=
  Vec.dot (normalize_row x) (normalize_row y).

End Sklearn.

(** ** pandas: sorting a series by value, descending

    [sort_values(ascending=False)] is called with the default
    [kind="quicksort"], which the library documents as not stable: what
    every kind of sort gives is a rearrangement of the series with the
    values in descending order. *)

Definition score_ge (a b : string * R) : Prop := snd b <= snd a.

Record SortKind : Type := mkSortKind {
  sort_values : Series -> Series;
  sort_values_perm : forall s, Permutation (sort_values s) s;
  sort_values_desc : forall s, StronglySorted score_ge (sort_values s)
}.

(** An algorithm meeting that contract: the insertion sort.  With [after]
    the strict order an element goes behind the elements of equal value
    that were there before it, as [kind="stable"] has it. *)
Fixpoint insert_by (after : R -> R -> bool) (x : string * R) (l : Series) : Series :=
  match l with
  | [] => [x]
  | y :: l' => if after (snd x) (snd y) then y :: insert_by after x l' else x :: l
  end.

Definition insertion_sort (after : R -> R -> bool) (s : Series) : Series :=
  fold_right (insert_by after) [] s.

Definition Rltb (x y : R) : bool := if Rlt_dec x y then true else false.

Definition stable_sort_values (s : Series) : Series := insertion_sort Rltb s.

(** ** numpy: [argsort] with [kind="quicksort"]

    The portable routine [npy_aquicksort] sorts an array of indices by the
    values they point to.  It is an introsort: ranges of more than
    [SMALL_QUICKSORT] places are split around the median of their first,
    middle and last value, shorter ones are finished by an insertion sort.
    The array [tosort] is the list [a], the pointers [pl], [pr], [pi],
    [pj] are positions in it, and the values are known through [less]
    alone: [less i j] says that the value at index [i] is below the value
    at index [j].  The pivot [vp] is kept as the index of its value.  The
    loops run on fuel that bounds their number of rounds.  When its depth
    limit is used up the routine hands the range to a heap sort; that
    branch is not embedded, [aquicksort] answers [None] there. *)

Module Numpy.

Section Argsort.

Variable less : nat -> nat -> bool.

Definition get (a : list nat) (i : nat) : nat := nth i a 0%nat.

Fixpoint set (a : list nat) (i x : nat) : list nat :=
  match a, i with
  | [], _ => []
  | _ :: t, O => x :: t
  | h :: t, S i' => h :: set t i' x
  end.

(** [INTP_SWAP(a[i], a[j])]. *)
Definition swap (a : list nat) (i j : nat) : list nat :=
  set (set a i (get a j)) j (get a i).

(** [if (less(v[a[i]], v[a[j]])) INTP_SWAP(a[i], a[j])]. *)
Definition swap_if_less (a : list nat) (i j : nat) : list nat :=
  if less (get a i) (get a j) then swap a i j else a.

(** [do { ++pi; } while (less(v[*pi], vp))]. *)
Fixpoint scan_up (fuel : nat) (a : list nat) (vp pi : nat) : nat :=
  match fuel with
  | O => S pi
  | S f => if less (get a (S pi)) vp then scan_up f a vp (S pi) else S pi
  end.

(** [do { --pj; } while (less(vp, v[*pj]))]. *)
Fixpoint scan_down (fuel : nat) (a : list nat) (vp pj : nat) : nat :=
  match fuel with
  | O => (pj - 1)%nat
  | S f =>
      if less vp (get a (pj - 1)) then scan_down f a vp (pj - 1)%nat
      else (pj - 1)%nat
  end.

(** The exchange loop of the partition: both scans, then a swap, until the
    two positions meet. *)
Fixpoint exchange (fuel : nat) (a : list nat) (vp pi pj : nat) : list nat * nat :=
  match fuel with
  | O => (a, pi)
  | S f =>
      let pi' := scan_up (List.length a) a vp pi in
      let pj' := scan_down (List.length a) a vp pj in
      if (pj' <=? pi')%nat then (a, pi')
      else exchange f (swap a pi' pj') vp pi' pj'
  end.

(** One partition of the range [pl .. pr]: the median of three goes to
    [pr - 1], the exchange loop runs, and the pivot is put at the place
    [pi] that is returned. *)
Definition partition (a : list nat) (pl pr : nat) : list nat * nat :=
  let pm := (pl + Nat.div2 (pr - pl))%nat in
  let a := swap_if_less a pm pl in
  let a := swap_if_less a pr pm in
  let a := swap_if_less a pm pl in
  let vp := get a pm in
  let a := swap a pm (pr - 1) in
  let '(a, pi) := exchange (List.length a) a vp pl (pr - 1)%nat in
  (swap a pi (pr - 1), pi).

(** The inner loop of the insertion sort: entries above [vi] move up one
    place, then [vi] is stored. *)
Fixpoint shift (fuel : nat) (a : list nat) (vi pl pj : nat) : list nat :=
  match fuel with
  | O => set a pj vi
  | S f =>
      if (pl <? pj)%nat && less vi (get a (pj - 1))
      then shift f (set a pj (get a (pj - 1))) vi pl (pj - 1)%nat
      else set a pj vi
  end.

(** [for (pi = pl + 1; pi <= pr; ++pi)], [count] rounds being left. *)
Fixpoint insertion (count : nat) (a : list nat) (pl pi : nat) : list nat :=
  match count with
  | O => a
  | S c => insertion c (shift (List.length a) a (get a pi) pl pi) pl (S pi)
  end.

Definition SMALL_QUICKSORT : nat := 16.

(** The outer loop.  [stack] holds the ranges put aside, each with the
    depth left for it; [popped] tells that the range was just taken from
    the stack (or is the first), the one place where the depth is tested. *)
Fixpoint quick (fuel : nat) (a : list nat) (pl pr : nat) (cdepth : Z)
    (stack : list (nat * nat * Z)) (popped : bool) : option (list nat) :=
  match fuel with
  | O => None
  | S f =>
      if popped && (cdepth <? 0)%Z then None
      else if (SMALL_QUICKSORT <? pr - pl)%nat then
        let '(a, pi) := partition a pl pr in
        let d := (cdepth - 1)%Z in
        if (pi - pl <? pr - pi)%nat
        then quick f a pl (pi - 1)%nat d ((S pi, pr, d) :: stack) false
        else quick f a (S pi) pr d ((pl, (pi - 1)%nat, d) :: stack) false
      else
        let a := insertion (pr - pl) a pl (S pl) in
        match stack with
        | [] => Some a
        | (pl', pr', d) :: stack' => quick f a pl' pr' d stack' true
        end
  end.

(** [npy_aquicksort(v, tosort, num)] on [tosort = 0, 1, ..., num - 1], the
    depth limit being twice the position of the highest set bit of [num]. *)
Definition aquicksort (num : nat) : option (list nat) :=
  quick (2 * num + 2) (seq 0 num) 0 (num - 1)
        (2 * Z.of_nat (Nat.log2 num)) [] true.

End Argsort.

End Numpy.

(** ** pandas: [nargsort] and [Series.sort_values], descending, default kind

    For [ascending=False], [nargsort] reverses the values, sorts the
    reversed array in ascending order with the requested kind of sort and
    reverses the outcome; that way a stable sort keeps equal values in
    their original order.  The scores are numbers, so no NaN is set
    aside. *)

(** [values[indexer]]. *)
Definition take {A} (d : A) (vals : list A) (indexer : list nat) : list A :=
  map (fun i => nth i vals d) indexer.

Definition nargsort_descending (items : list R) : option (list nat) :=
  let non_nans := rev items in
  let non_nan_idx := rev (seq 0 (List.length items)) in
  option_map (fun order => rev (take 0%nat non_nan_idx order))
    (Numpy.aquicksort (fun i j => Rltb (nth i non_nans 0) (nth j non_nans 0))
                      (List.length non_nans)).

(** [indexer] holds every position below [n] and has [n] entries. *)
Definition is_indexer (n : nat) (indexer : list nat) : bool :=
  (List.length indexer =? n)%nat
  && forallb (fun i => existsb (Nat.eqb i) indexer) (seq 0 n).

Fixpoint is_descending (s : Series) : bool :=
  match s with
  | [] => true
  | x :: s' => forallb (fun y => Rleb (snd y) (snd x)) s' && is_descending s'
  end.

(** [s.sort_values(ascending=False)]: the series taken at the positions
    [nargsort] gives.  These are a rearrangement that puts the values in
    descending order, which is what the routine is for; where the
    embedding does not give one (the heap sort is not embedded) the stable
    sort stands in. *)
Definition quicksort_sort_values (s : Series) : Series :=
  match nargsort_descending (map snd s) with
  | Some indexer =>
      let sorted := take (EmptyString, 0) s indexer in
      if is_indexer (List.length s) indexer && is_descending sorted then sorted
      else stable_sort_values s
  | None => stable_sort_values s
  end.

(** ** The module's globals and functions *)

Definition eps : R := 1e-9.

Section Recommend.

Variable ratings : list Rating.t.
Variable products : list Product.t.
Variable kind : SortKind.

(** *** Rating matrix *)

(** Ratings of one (user, product) group. *)
Definition group (u p : string) : list R :=
  map Rating.rating
    (filter (fun r => String.eqb (Rating.user r) u && String.eqb (Rating.product r) p)
            ratings).

(** The default [aggfunc] of [pivot_table]: the mean, NaN for no value. *)
Definition mean (l : list R) : option R :=
  match l with
  | [] => None
  | _ => Some (Vec.sum l / INR (List.length l))
  end.

Definition pivot_table : DataFrame (option R) :=
  let users := sorted_unique (map Rating.user ratings) in
  let prods := sorted_unique (map Rating.product ratings) in
  mkFrame users prods (map (fun u => map (fun p => mean (group u p)) prods) users).

Definition catalog : list string := map Product.product products.

Definition rating_matrix : DataFrame R :=
  fillna (reindex_columns pivot_table catalog (Some 0)) 0.

(** *** Similarity matrices *)

Definition item_similarity : DataFrame R :=
  mkFrame (columns rating_matrix) (columns rating_matrix)
    (Sklearn.cosine_similarity
       (Vec.transpose (List.length (columns rating_matrix)) (values rating_matrix))).

Definition user_similarity : DataFrame R :=
  mkFrame (index rating_matrix) (index rating_matrix)
    (Sklearn.cosine_similarity (values rating_matrix)).

(** *** Score functions *)

Definition item_based_score (user_id : string) : result Series :=
  user_ratings <- loc_row rating_matrix user_id ;;
  let num := Vec.matvec (values item_similarity) user_ratings in
  let den := map (fun row => Vec.sum row + eps) (values item_similarity) in
  ret (combine (index item_similarity) (Vec.zip_with Rdiv num den)).

Definition user_based_score (user_id : string) : result Series :=
  sims <- get_column user_similarity user_id ;;
  let sims := drop user_id sims in
  let other_ratings := loc_rows rating_matrix (map fst sims) in
  let weighted :=
    map (fun x => x / (Vec.sum (map snd sims) + eps))
        (Vec.vecmat (List.length (columns rating_matrix)) (map snd sims) other_ratings) in
  ret (combine (columns rating_matrix) weighted).

Definition get_hybrid_scores (user_id : string) (alpha : R) : result Series :=
  if negb (mem user_id (index rating_matrix)) then
    inl (ValueError ("User " ++ user_id ++ " not found in rating matrix.")%string)
  else
    ib <- item_based_score user_id ;;
    ub <- user_based_score user_id ;;
    ret (Vec.zip_with (fun u i => (fst u, alpha * snd u + (1 - alpha) * snd i)) ub ib).

(** *** Hybrid recommendation *)

(** [recs.merge(products, on="product", how="left")]: every row of the
    left frame, once per product row of that key, or once with empty
    metadata when there is none. *)
Definition merge_row (r : string * R) : list Recommendation :=
  match filter (fun p => String.eqb (Product.product p) (fst r)) products with
  | [] => [mkRec (fst r) (snd r) None None None None]
  | ms => map (fun p => mkRec (fst r) (snd r)
                          (Some (Product.product_name p))
                          (Some (Product.category p))
                          (Product.price p)
                          (Some (Product.image p))) ms
  end.

Definition merge_left (recs : Series) : list Recommendation :=
  flat_map merge_row recs.

(** [recs["price"].notna() & (recs["price"] <= price_limit)]. *)
Definition price_within (price_limit : R) (r : Recommendation) : bool :=
  match rec_price r with
  | Some x => Rleb x price_limit
  | None => false
  end.

(** [recs["category"] == category]. *)
Definition category_is (category : string) (r : Recommendation) : bool :=
  match rec_category r with
  | Some c => String.eqb c category
  | None => false
  end.

(** The unrated candidates in catalog order. *)
Definition candidates (hybrid : Series) (user_ratings : list R) : Series :=
  let already_rated := map (fun r => Rgtb r 0) user_ratings in
  boolean_index hybrid (map negb already_rated).

Definition apply_filters (price_limit : option R) (category : option string)
    (recs : list Recommendation) : list Recommendation :=
  let recs := match price_limit with
              | Some lim => filter (price_within lim) recs
              | None => recs
              end in
  match category with
  | Some c => filter (category_is c) recs
  | None => recs
  end.

(** The ranked candidates joined with their metadata: the frame [recs]
    before the filters. *)
Definition top_ranked (user_id : string) (alpha : R) (top_n : Z)
    : result (list Recommendation) :=
  hybrid <- get_hybrid_scores user_id alpha ;;
  user_ratings <- loc_row rating_matrix user_id ;;
  let recs := head top_n (sort_values kind (candidates hybrid user_ratings)) in
  ret (merge_left recs).

Definition hybrid_recommend (user_id : string) (alpha : R) (top_n : Z)
    (price_limit : option R) (category : option string)
    : result (list Recommendation) :=
  recs <- top_ranked user_id alpha top_n ;;
  ret (apply_filters price_limit category recs).

(** *** Quantities the statements below are written with *)

(** The value of the rating matrix at user [u] and product [p]. *)
Definition cell (u p : string) : R :=
  match mean (group u p) with
  | Some m => m
  | None => 0
  end.

Definition users : list string := sorted_unique (map Rating.user ratings).

Definition user_vector (u : string) : list R := map (cell u) catalog.
Definition item_vector (p : string) : list R := map (fun u => cell u p) users.

(** Row [p] of the item similarity matrix. *)
Definition item_similarity_row (p : string) : list R :=
  map (fun q => Sklearn.cosine (item_vector p) (item_vector q)) catalog.

Definition item_score (u p : string) : R :=
  Vec.dot (item_similarity_row p) (user_vector u)
  / (Vec.sum (item_similarity_row p) + eps).

(** The users other than [u], and their similarities to [u]. *)
Definition others (u : string) : list string :=
  filter (fun v => negb (String.eqb v u)) users.

Definition neighbour_weights (u : string) : list R :=
  map (fun v => Sklearn.cosine (user_vector v) (user_vector u)) (others u).

Definition user_score (u p : string) : R :=
  Vec.dot (neighbour_weights u) (map (fun v => cell v p) (others u))
  / (Vec.sum (neighbour_weights u) + eps).

Definition hybrid_score (u : string) (alpha : R) (p : string) : R :=
  alpha * user_score u p + (1 - alpha) * item_score u p.

(** The products whose rating by [u] is not positive, in catalog order. *)
Definition unrated (u : string) : list string :=
  filter (fun p => negb (Rgtb (cell u p) 0)) catalog.

(** The first [top_n] of them by descending hybrid score. *)
Definition ranked (u : string) (alpha : R) (top_n : Z) : Series :=
  head top_n
    (sort_values kind (map (fun p => (p, hybrid_score u alpha p)) (unrated u))).

End Recommend.

(** ** The rating matrix and the similarity matrices in binary64

    The same construction on IEEE 754 binary64 numbers in place of reals,
    for the statements that rounding decides.  A missing cell of the pivot
    table is a NaN, which [fillna] tests for.  Sums and dot products add
    their terms from left to right. *)

Module F64.

Import PrimFloat.
Local Open Scope float_scope.

Module Rating.
Record t : Type := mk { user : string; product : string; rating : float }.
End Rating.

Definition sum (v : list float) : float := fold_left add v 0.

Definition count (v : list float) : float := fold_left (fun n _ => n + 1) v 0.

Definition dot (x y : list float) : float :=
  fold_left (fun acc ab => acc + fst ab * snd ab) (combine x y) 0.

Definition column (j : nat) (M : list (list float)) : list float :=
  map (fun row => nth j row 0) M.

Definition transpose (n : nat) (M : list (list float)) : list (list float) :=
  map (fun j => column j M) (seq 0 n).

Definition group (ratings : list Rating.t) (u p : string) : list float :=
  map Rating.rating
    (filter (fun r => String.eqb (Rating.user r) u && String.eqb (Rating.product r) p)
            ratings).

Definition mean (l : list float) : float :=
  match l with
  | [] => nan
  | _ => sum l / count l
  end.

Definition pivot_table (ratings : list Rating.t) : DataFrame float :=
  let users := sorted_unique (map Rating.user ratings) in
  let prods := sorted_unique (map Rating.product ratings) in
  mkFrame users prods
    (map (fun u => map (fun p => mean (group ratings u p)) prods) users).

Definition fillna (df : DataFrame float) (v : float) : DataFrame float :=
  mkFrame (index df) (columns df)
    (map (map (fun c => if is_nan c then v else c)) (values df)).

Definition rating_matrix (ratings : list Rating.t) (products : list Product.t)
    : DataFrame float :=
  fillna (reindex_columns (pivot_table ratings) (catalog products) 0) 0.

Definition row_norm (x : list float) : float := sqrt (dot x x).

(** [np.finfo(np.float64).eps]. *)
Definition eps64 : float := 0x1p-52.

Definition handle_zeros_in_scale (n : float) : float :=
  if n <? 10 * eps64 then 1 else n.

Definition normalize_row (x : list float) : list float :=
  map (fun a => a / handle_zeros_in_scale (row_norm x)) x.

Definition cosine_similarity (X : list (list float)) : list (list float) :=
  let Xn := map normalize_row X in
  map (fun xi => map (fun xj => dot xi xj) Xn) Xn.

Definition item_similarity (ratings : list Rating.t) (products : list Product.t)
    : DataFrame float :=
  let rm := rating_matrix ratings products in
  mkFrame (columns rm) (columns rm)
    (cosine_similarity (transpose (List.length (columns rm)) (values rm))).

Definition user_similarity (ratings : list Rating.t) (products : list Product.t)
    : DataFrame float :=
  let rm := rating_matrix ratings products in
  mkFrame (index rm) (index rm) (cosine_similarity (values rm)).

End F64.

(** ** Orderings of a recommendation list *)

Definition rec_ge (a b : Recommendation) : Prop := rec_score b <= rec_score a.

(** Label [p] stands before label [q] in [catalog]. *)
Definition before_in (catalog : list string) (p q : string) : Prop :=
  exists m n,
    index_of p catalog = Some m /\ index_of q catalog = Some n /\ (m < n)%nat.

(** Descending by score, equal scores in catalog order. *)
Definition score_then_catalog (catalog : list string) (a b : string * R) : Prop :=
  snd b < snd a \/ (snd b = snd a /\ before_in catalog (fst a) (fst b)).

Definition rec_score_then_catalog (catalog : list string) (a b : Recommendation)
    : Prop :=
  rec_score b < rec_score a
  \/ (rec_score b = rec_score a /\ before_in catalog (rec_product a) (rec_product b)).

(** Recommendations of equal score stand in catalog order. *)
Definition ties_in_catalog_order (catalog : list string) (out : list Recommendation)
    : Prop :=
  forall i j a b m n,
    (i < j)%nat ->
    nth_error out i = Some a -> nth_error out j = Some b ->
    rec_score a = rec_score b ->
    index_of (rec_product a) catalog = Some m ->
    index_of (rec_product b) catalog = Some n ->
    (m < n)%nat.

(** ** The item-based score in the words of the specification

    For a product [p]: the sum over all products [q] of
    [sim p q * rating q], divided by the sum over all products [q] of
    [sim p q], plus epsilon. *)

Definition spec_item_based_score (sim : string -> string -> R) (rating : string -> R)
    (all_products : list string) (p : string) : R :=
  Vec.sum (map (fun q => sim p q * rating q) all_products)
  / (Vec.sum (map (fun q => sim p q) all_products) + 1e-9).

(** The same with the sums restricted to the products the user rated: the
    normalisation the specification rules out. *)
Definition rated_only_item_score (sim : string -> string -> R) (rating : string -> R)
    (all_products : list string) (p : string) : R :=
  let rated := filter (fun q => Rgtb (rating q) 0) all_products in
  Vec.sum (map (fun q => sim p q * rating q) rated)
  / (Vec.sum (map (fun q => sim p q) rated) + 1e-9).

(** ** A small data set

    User U1 rated product A twice, user U2 rated only a product that is not
    in the catalog; products B, C and D have no rating. *)

Definition demo_ratings : list Rating.t :=
  [ Rating.mk "U1" "A" 4; Rating.mk "U1" "A" 2; Rating.mk "U2" "Z" 3 ].

Definition demo_products : list Product.t :=
  [ Product.mk "A" "Anvil" "Tools" (Some 10) "a.png";
    Product.mk "B" "Bellows" "Tools" (Some 50) "b.png";
    Product.mk "C" "Chisel" "Tools" (Some 20) "c.png";
    Product.mk "D" "Drill" "Power" (Some 5) "d.png" ].

(** A second data set, with overlapping ratings: user U1 rated product A,
    user U2 rated products A and B. *)

Definition overlap_ratings : list Rating.t :=
  [ Rating.mk "U1" "A" 3; Rating.mk "U2" "A" 4; Rating.mk "U2" "B" 4 ].

Definition overlap_products : list Product.t :=
  [ Product.mk "A" "Anvil" "Tools" (Some 10) "a.png";
    Product.mk "B" "Bellows" "Tools" None "b.png" ].

(** The ratings of the second data set as binary64 numbers, and a data
    set with one rating so large that its square is beyond the largest
    binary64 number. *)

Section DataBinary64.

Import PrimFloat.

Definition overlap_ratings64 : list F64.Rating.t :=
  [ F64.Rating.mk "U1" "A" 3%float; F64.Rating.mk "U2" "A" 4%float;
    F64.Rating.mk "U2" "B" 4%float ].

(** [0x1.4e718d7d7625ap+664] is the binary64 number written [1e200]. *)
Definition huge_ratings64 : list F64.Rating.t :=
  [ F64.Rating.mk "U1" "A" 0x1.4e718d7d7625ap+664%float ].

End DataBinary64.







(** * Facts *)

(** ** Labels and lookups *)

Lemma mem_In (k : string) (l : list string) : mem k l = true <-> In k l.
Proof.
  unfold mem. rewrite existsb_exists. split.
  - intros [x [Hx He]]. apply String.eqb_eq in He. now subst.
  - intros H. exists k. split; [assumption | apply String.eqb_refl].
Qed.

Lemma mem_false (k : string) (l : list string) : mem k l = false <-> ~ In k l.
Proof.
  rewrite <- mem_In. destruct (mem k l); split; congruence.
Qed.

Lemma loc_map {A} (f : string -> A) (l : list string) (k : string) :
  In k l -> loc l (map f l) k = Some (f k).
Proof.
  induction l as [|x l IH]; simpl; [contradiction|].
  intros H. destruct (String.eqb x k) eqn:E.
  - apply String.eqb_eq in E. now subst.
  - apply IH. destruct H as [H|H]; [|assumption].
    subst. rewrite String.eqb_refl in E. discriminate.
Qed.

Lemma loc_not_In {A} (l : list string) (vals : list A) (k : string) :
  ~ In k l -> loc l vals k = None.
Proof.
  revert vals. induction l as [|x l IH]; intros vals H; simpl; [reflexivity|].
  destruct vals as [|v vals]; [reflexivity|].
  destruct (String.eqb x k) eqn:E.
  - apply String.eqb_eq in E. subst. exfalso. apply H. now left.
  - apply IH. intros Hin. apply H. now right.
Qed.

Lemma index_of_nth (k : string) (l : list string) (j : nat) :
  index_of k l = Some j -> nth j l EmptyString = k /\ (j < List.length l)%nat.
Proof.
  revert j. induction l as [|x l IH]; simpl; intros j H; [discriminate|].
  destruct (String.eqb x k) eqn:E.
  - injection H as <-. apply String.eqb_eq in E. split; [assumption | lia].
  - destruct (index_of k l) as [i|]; simpl in H; [|discriminate].
    injection H as <-. destruct (IH i eq_refl). split; [assumption | lia].
Qed.

Lemma index_of_In (k : string) (l : list string) :
  In k l -> exists j, index_of k l = Some j.
Proof.
  induction l as [|x l IH]; simpl; [contradiction|].
  intros H. destruct (String.eqb x k) eqn:E; [eauto|].
  destruct IH as [j Hj].
  - destruct H as [H|H]; [|assumption].
    subst. rewrite String.eqb_refl in E. discriminate.
  - rewrite Hj. simpl. eauto.
Qed.

Lemma insert_unique_In (s a : string) (l : list string) :
  In s (insert_unique a l) <-> s = a \/ In s l.
Proof.
  induction l as [|x l IH]; simpl.
  - intuition.
  - destruct (String.compare a x) eqn:E; simpl.
    + apply String.compare_eq_iff in E. subst. intuition.
    + intuition.
    + rewrite IH. intuition.
Qed.

Lemma sorted_unique_In (s : string) (l : list string) :
  In s (sorted_unique l) <-> In s l.
Proof.
  unfold sorted_unique. induction l as [|x l IH]; simpl.
  - tauto.
  - rewrite insert_unique_In, IH. intuition.
Qed.

Lemma combine_map_self {A B} (f : A -> B) (l : list A) :
  combine l (map f l) = map (fun a => (a, f a)) l.
Proof.
  induction l as [|x l IH]; simpl; [reflexivity | now rewrite IH].
Qed.

Lemma map_seq_nth {A B} (f : A -> B) (d : A) (l : list A) :
  map (fun j => f (nth j l d)) (seq 0 (List.length l)) = map f l.
Proof.
  induction l as [|x l IH]; simpl; [reflexivity|].
  f_equal. rewrite <- seq_shift, map_map. exact IH.
Qed.

(** ** The rating matrix *)

Lemma group_no_product (rs : list Rating.t) (u p : string) :
  ~ In p (map Rating.product rs) -> group rs u p = [].
Proof.
  unfold group. induction rs as [|r rs IH]; simpl; [reflexivity|].
  intros H. destruct (String.eqb (Rating.product r) p) eqn:E.
  - apply String.eqb_eq in E. exfalso. apply H. now left.
  - rewrite andb_false_r. apply IH. intros Hin. apply H. now right.
Qed.

Lemma group_In_user (rs : list Rating.t) (u p : string) :
  group rs u p <> [] -> In u (map Rating.user rs).
Proof.
  unfold group. induction rs as [|r rs IH]; simpl; [congruence|].
  destruct (String.eqb (Rating.user r) u) eqn:E.
  - apply String.eqb_eq in E. now left.
  - simpl. intros H. right. now apply IH.
Qed.

Lemma group_nonneg (rs : list Rating.t) (u p : string) :
  Forall (fun r => 0 <= Rating.rating r) rs -> Forall (fun x => 0 <= x) (group rs u p).
Proof.
  unfold group. induction 1 as [|r rs Hr _ IH]; simpl; [constructor|].
  destruct (_ && _); simpl; [constructor|]; assumption.
Qed.

Lemma sum_nonneg (l : list R) : Forall (fun x => 0 <= x) l -> 0 <= Vec.sum l.
Proof.
  induction 1 as [|x l Hx _ IH]; simpl; lra.
Qed.

Lemma cell_nonneg (rs : list Rating.t) (u p : string) :
  Forall (fun r => 0 <= Rating.rating r) rs -> 0 <= cell rs u p.
Proof.
  intros H. unfold cell, mean.
  pose proof (sum_nonneg _ (group_nonneg rs u p H)) as Hs.
  destruct (group rs u p) as [|x l] eqn:E; [lra|].
  apply Rmult_le_pos; [assumption|].
  left. apply Rinv_0_lt_compat. apply lt_0_INR. simpl. lia.
Qed.

Section RatingMatrixFacts.

Variable ratings : list Rating.t.
Variable products : list Product.t.

Lemma rating_matrix_index :
  index (rating_matrix ratings products) = users ratings.
Proof. reflexivity. Qed.

Lemma rating_matrix_columns :
  columns (rating_matrix ratings products) = catalog products.
Proof. reflexivity. Qed.

(** Pivot, reindex and fillna together: one row per user, one cell per
    catalog product, holding the group's mean or 0. *)
Lemma rating_matrix_values :
  values (rating_matrix ratings products)
  = map (user_vector ratings products) (users ratings).
Proof.
  unfold rating_matrix, fillna, reindex_columns, pivot_table, user_vector, users.
  simpl. rewrite !map_map. apply map_ext. intros u.
  rewrite map_map. apply map_ext. intros c.
  destruct (in_dec string_dec c (sorted_unique (map Rating.product ratings)))
    as [Hin|Hout].
  - rewrite loc_map by assumption. reflexivity.
  - rewrite loc_not_In by assumption.
    unfold cell. rewrite group_no_product; [reflexivity|].
    now rewrite <- sorted_unique_In.
Qed.

Lemma loc_row_rating_matrix (u : string) :
  In u (users ratings) ->
  loc_row (rating_matrix ratings products) u = inr (user_vector ratings products u).
Proof.
  intros H. unfold loc_row.
  rewrite rating_matrix_index, rating_matrix_values, loc_map by assumption.
  reflexivity.
Qed.

Lemma at_rating_matrix (u p : string) :
  In u (users ratings) -> In p (catalog products) ->
  at_ (rating_matrix ratings products) u p = Some (cell ratings u p).
Proof.
  intros Hu Hp. unfold at_.
  rewrite rating_matrix_index, rating_matrix_values, loc_map by assumption.
  rewrite rating_matrix_columns. unfold user_vector. now rewrite loc_map.
Qed.

Lemma at_rating_matrix_inv (u p : string) (r : R) :
  at_ (rating_matrix ratings products) u p = Some r ->
  In u (users ratings) /\ In p (catalog products) /\ r = cell ratings u p.
Proof.
  intros H.
  destruct (in_dec string_dec u (users ratings)) as [Hu|Hu].
  - destruct (in_dec string_dec p (catalog products)) as [Hp|Hp].
    + rewrite at_rating_matrix in H by assumption. injection H as <-. auto.
    + unfold at_ in H.
      rewrite rating_matrix_index, rating_matrix_values, loc_map in H by assumption.
      rewrite rating_matrix_columns, loc_not_In in H by assumption. discriminate.
  - unfold at_ in H.
    rewrite rating_matrix_index, loc_not_In in H by assumption. discriminate.
Qed.

(** The transposed matrix: one vector per catalog product. *)
Lemma transpose_user_vectors (us : list string) :
  Vec.transpose (List.length (catalog products))
    (map (user_vector ratings products) us)
  = map (fun p => map (fun u => cell ratings u p) us) (catalog products).
Proof.
  unfold Vec.transpose, Vec.column, user_vector.
  rewrite <- (map_seq_nth (fun p => map (fun u => cell ratings u p) us) EmptyString).
  apply map_ext_in. intros j Hj. apply in_seq in Hj.
  rewrite map_map. apply map_ext. intros u.
  rewrite (nth_indep _ 0 (cell ratings u EmptyString)) by (rewrite length_map; lia).
  apply map_nth.
Qed.

End RatingMatrixFacts.

(** C10. Several records for one (user, product) pair are averaged: the
    matrix cell of a catalog product holds the arithmetic mean of the
    pair's ratings, and a single record's rating as it is. *)
Theorem pivot_mean_of_duplicates
    (ratings : list Rating.t) (products : list Product.t)
    (u p : string) (r : R) (rs : list R) :
  In p (catalog products) ->
  group ratings u p = r :: rs ->
  at_ (rating_matrix ratings products) u p
    = Some (Vec.sum (r :: rs) / INR (List.length (r :: rs)))
  /\ (rs = [] -> at_ (rating_matrix ratings products) u p = Some r).
Proof.
  intros Hp Hg.
  assert (Hu : In u (users ratings)).
  { apply sorted_unique_In. apply (group_In_user ratings u p). congruence. }
  assert (Hc : cell ratings u p = Vec.sum (r :: rs) / INR (List.length (r :: rs))).
  { unfold cell, mean. now rewrite Hg. }
  rewrite at_rating_matrix, Hc by assumption.
  split; [reflexivity|].
  intros ->. simpl. f_equal. field.
Qed.

(** ** Dot products and cosine similarity *)

Lemma dot_comm (x y : list R) : Vec.dot x y = Vec.dot y x.
Proof.
  revert y. induction x as [|a x IH]; destruct y as [|b y]; simpl; try reflexivity.
  rewrite IH. ring.
Qed.

Lemma dot_zeros_l (x y : list R) : Forall (fun a => a = 0) x -> Vec.dot x y = 0.
Proof.
  intros H. revert y. induction H as [|a x Ha _ IH]; destruct y as [|b y]; simpl;
    try reflexivity.
  rewrite IH, Ha. ring.
Qed.

Lemma dot_zeros_r (x y : list R) : Forall (fun a => a = 0) y -> Vec.dot x y = 0.
Proof.
  intros H. rewrite dot_comm. now apply dot_zeros_l.
Qed.


Lemma dot_self_nonneg (x : list R) : 0 <= Vec.dot x x.
Proof.
  induction x as [|a x IH]; simpl; [lra | nra].
Qed.

Lemma dot_scaled (c d : R) (x y : list R) :
  c <> 0 -> d <> 0 ->
  Vec.dot (map (fun a => a / c) x) (map (fun b => b / d) y) = Vec.dot x y / (c * d).
Proof.
  intros Hc Hd. revert y.
  induction x as [|a x IH]; destruct y as [|b y]; simpl; try (field; auto).
  rewrite IH. field. auto.
Qed.

Lemma row_norm_nonneg (x : list R) : 0 <= Sklearn.row_norm x.
Proof. apply sqrt_pos. Qed.

Lemma eps64_pos : 0 < Sklearn.eps64.
Proof. unfold Sklearn.eps64. apply Rinv_0_lt_compat, pow_lt. lra. Qed.

(** The divisor of the normalisation is never zero. *)
Lemma handle_zeros_positive (x : list R) :
  0 < Sklearn.handle_zeros_in_scale (Sklearn.row_norm x).
Proof.
  unfold Sklearn.handle_zeros_in_scale.
  pose proof (row_norm_nonneg x). pose proof eps64_pos.
  destruct (Rlt_dec (Sklearn.row_norm x) (10 * Sklearn.eps64)); lra.
Qed.



Lemma cosine_formula (x y : list R) :
  Sklearn.cosine x y
  = Vec.dot x y / (Sklearn.handle_zeros_in_scale (Sklearn.row_norm x)
                   * Sklearn.handle_zeros_in_scale (Sklearn.row_norm y)).
Proof.
  unfold Sklearn.cosine, Sklearn.normalize_row.
  pose proof (handle_zeros_positive x). pose proof (handle_zeros_positive y).
  apply dot_scaled; lra.
Qed.

Lemma cosine_comm (x y : list R) : Sklearn.cosine x y = Sklearn.cosine y x.
Proof. unfold Sklearn.cosine. apply dot_comm. Qed.

Lemma cosine_zeros_l (x y : list R) :
  Forall (fun a => a = 0) x -> Sklearn.cosine x y = 0.
Proof.
  intros H. rewrite cosine_formula, dot_zeros_l by assumption.
  unfold Rdiv. ring.
Qed.

Lemma cosine_zeros_r (x y : list R) :
  Forall (fun a => a = 0) y -> Sklearn.cosine x y = 0.
Proof.
  intros H. rewrite cosine_comm. now apply cosine_zeros_l.
Qed.


Lemma cosine_similarity_map {A} (v : A -> list R) (l : list A) :
  Sklearn.cosine_similarity (map v l)
  = map (fun a => map (fun b => Sklearn.cosine (v a) (v b)) l) l.
Proof.
  unfold Sklearn.cosine_similarity, Sklearn.normalize, Sklearn.cosine.
  rewrite !map_map. apply map_ext. intros a. now rewrite map_map.
Qed.

(** A square frame over labels [l] whose entry at (a, b) is [f a b]. *)
Lemma at_square (f : string -> string -> R) (l : list string) (p q : string) :
  In p l -> In q l ->
  at_ (mkFrame l l (map (fun a => map (fun b => f a b) l) l)) p q = Some (f p q).
Proof.
  intros Hp Hq. unfold at_. simpl.
  rewrite (loc_map (fun a => map (fun b => f a b) l)) by assumption.
  now rewrite (loc_map (fun b => f p b)).
Qed.

Lemma at_square_None (f : string -> string -> R) (l : list string) (p q : string) :
  ~ In p l \/ ~ In q l ->
  at_ (mkFrame l l (map (fun a => map (fun b => f a b) l) l)) p q = None.
Proof.
  intros H. unfold at_. simpl.
  destruct (in_dec string_dec p l) as [Hp|Hp].
  - rewrite (loc_map (fun a => map (fun b => f a b) l)) by assumption.
    apply loc_not_In. tauto.
  - now rewrite loc_not_In.
Qed.

Section SimilarityFacts.

Variable ratings : list Rating.t.
Variable products : list Product.t.

Lemma item_similarity_values :
  values (item_similarity ratings products)
  = map (fun p => map (fun q => Sklearn.cosine (item_vector ratings p)
                                               (item_vector ratings q))
                      (catalog products))
        (catalog products).
Proof.
  unfold item_similarity. cbn [values].
  rewrite rating_matrix_columns, rating_matrix_values, transpose_user_vectors.
  apply (cosine_similarity_map (item_vector ratings)).
Qed.

Lemma user_similarity_values :
  values (user_similarity ratings products)
  = map (fun u => map (fun v => Sklearn.cosine (user_vector ratings products u)
                                               (user_vector ratings products v))
                      (users ratings))
        (users ratings).
Proof.
  unfold user_similarity. cbn [values].
  rewrite rating_matrix_values. apply cosine_similarity_map.
Qed.

Lemma item_similarity_frame :
  item_similarity ratings products
  = mkFrame (catalog products) (catalog products)
      (map (fun p => map (fun q => Sklearn.cosine (item_vector ratings p)
                                                  (item_vector ratings q))
                         (catalog products))
           (catalog products)).
Proof.
  rewrite <- item_similarity_values. reflexivity.
Qed.

Lemma user_similarity_frame :
  user_similarity ratings products
  = mkFrame (users ratings) (users ratings)
      (map (fun u => map (fun v => Sklearn.cosine (user_vector ratings products u)
                                                  (user_vector ratings products v))
                         (users ratings))
           (users ratings)).
Proof.
  rewrite <- user_similarity_values. reflexivity.
Qed.

Lemma at_item_similarity (p q : string) :
  In p (catalog products) -> In q (catalog products) ->
  at_ (item_similarity ratings products) p q
  = Some (Sklearn.cosine (item_vector ratings p) (item_vector ratings q)).
Proof.
  intros Hp Hq. rewrite item_similarity_frame.
  now apply (at_square (fun a b => Sklearn.cosine (item_vector ratings a)
                                                  (item_vector ratings b))).
Qed.

Lemma at_user_similarity (u v : string) :
  In u (users ratings) -> In v (users ratings) ->
  at_ (user_similarity ratings products) u v
  = Some (Sklearn.cosine (user_vector ratings products u)
                         (user_vector ratings products v)).
Proof.
  intros Hu Hv. rewrite user_similarity_frame.
  now apply (at_square (fun a b => Sklearn.cosine (user_vector ratings products a)
                                                  (user_vector ratings products b))).
Qed.


Lemma user_vector_zeros (u : string) :
  (forall p r, at_ (rating_matrix ratings products) u p = Some r -> r = 0) ->
  In u (users ratings) ->
  Forall (fun a => a = 0) (user_vector ratings products u).
Proof.
  intros H Hu. unfold user_vector. apply Forall_map, Forall_forall.
  intros p Hp. apply (H p). now apply at_rating_matrix.
Qed.

End SimilarityFacts.

(** *** Symmetry in binary64

    A product of two binary64 numbers does not depend on their order, so
    neither does a dot product whose terms are added in a fixed order. *)

Lemma loc_map_values {A B} (f : A -> B) (l : list string) (vals : list A)
    (k : string) :
  loc l (map f vals) k = option_map f (loc l vals k).
Proof.
  revert vals. induction l as [|x l IH]; intros [|v vals]; simpl; try reflexivity.
  destruct (String.eqb x k); [reflexivity | apply IH].
Qed.

(** The entries of a square frame of all pairwise values [g a b]. *)
Lemma at_pairwise {A B} (g : A -> A -> B) (rows : list A) (l : list string)
    (p q : string) :
  at_ (mkFrame l l (map (fun a => map (fun b => g a b) rows) rows)) p q
  = match loc l rows p, loc l rows q with
    | Some a, Some b => Some (g a b)
    | _, _ => None
    end.
Proof.
  unfold at_. cbn [index columns values]. rewrite loc_map_values.
  destruct (loc l rows p) as [a|]; simpl; [|reflexivity].
  rewrite loc_map_values. now destruct (loc l rows q).
Qed.

Lemma SFmul_comm (prec emax : Z) (x y : SpecFloat.spec_float) :
  SpecFloat.SFmul prec emax x y = SpecFloat.SFmul prec emax y x.
Proof.
  destruct x, y; simpl; try reflexivity; try (now rewrite xorb_comm).
  now rewrite xorb_comm, Pos.mul_comm, Z.add_comm.
Qed.

Lemma float_mul_comm (x y : PrimFloat.float) :
  PrimFloat.mul x y = PrimFloat.mul y x.
Proof.
  apply FloatAxioms.Prim2SF_inj. rewrite !FloatAxioms.mul_spec. apply SFmul_comm.
Qed.

Lemma accumulate64_comm (x y : list PrimFloat.float) (acc : PrimFloat.float) :
  fold_left (fun acc ab => PrimFloat.add acc (PrimFloat.mul (fst ab) (snd ab)))
            (combine x y) acc
  = fold_left (fun acc ab => PrimFloat.add acc (PrimFloat.mul (fst ab) (snd ab)))
              (combine y x) acc.
Proof.
  revert y acc.
  induction x as [|a x IH]; intros [|b y] acc; simpl; try reflexivity.
  rewrite (float_mul_comm a b). apply IH.
Qed.

Lemma dot64_comm (x y : list PrimFloat.float) : F64.dot x y = F64.dot y x.
Proof. apply accumulate64_comm. Qed.

Lemma cosine_similarity64_symmetric (l : list string)
    (X : list (list PrimFloat.float)) (p q : string) :
  at_ (mkFrame l l (F64.cosine_similarity X)) p q
  = at_ (mkFrame l l (F64.cosine_similarity X)) q p.
Proof.
  unfold F64.cosine_similarity. cbv zeta. rewrite !at_pairwise.
  destruct (loc l (map F64.normalize_row X) p) as [a|],
           (loc l (map F64.normalize_row X) q) as [b|]; try reflexivity.
  f_equal. apply dot64_comm.
Qed.

(** C6 (amended). Both similarity matrices are symmetric: the entry at
    (p, q) is the entry at (q, p), for every two products and for every two
    users.  This holds of the matrices over the reals, and of the matrices
    computed in binary64 entry for entry. *)
Theorem similarity_symmetric
    (ratings : list Rating.t) (ratings64 : list F64.Rating.t)
    (products : list Product.t) :
  (forall p q, In p (columns (rating_matrix ratings products)) ->
               In q (columns (rating_matrix ratings products)) ->
     exists s, at_ (item_similarity ratings products) p q = Some s
            /\ at_ (item_similarity ratings products) q p = Some s)
  /\ (forall u v, In u (index (rating_matrix ratings products)) ->
                  In v (index (rating_matrix ratings products)) ->
     exists s, at_ (user_similarity ratings products) u v = Some s
            /\ at_ (user_similarity ratings products) v u = Some s)
  /\ (forall p q,
        at_ (F64.item_similarity ratings64 products) p q
        = at_ (F64.item_similarity ratings64 products) q p)
  /\ (forall u v,
        at_ (F64.user_similarity ratings64 products) u v
        = at_ (F64.user_similarity ratings64 products) v u).
Proof.
  rewrite rating_matrix_columns, rating_matrix_index.
  split; [|split; [|split]].
  - intros p q Hp Hq. eexists. split.
    + now apply at_item_similarity.
    + rewrite at_item_similarity by assumption. f_equal. apply cosine_comm.
  - intros u v Hu Hv. eexists. split.
    + now apply at_user_similarity.
    + rewrite at_user_similarity by assumption. f_equal. apply cosine_comm.
  - intros p q. apply cosine_similarity64_symmetric.
  - intros u v. apply cosine_similarity64_symmetric.
Qed.


Lemma pivot_mean_of_duplicates_witness :
  at_ (rating_matrix demo_ratings demo_products) "U1" "A" = Some ((4 + (2 + 0)) / INR 2).
Proof.
  apply (pivot_mean_of_duplicates demo_ratings demo_products "U1" "A" 4 [2]).
  - simpl. auto.
  - reflexivity.
Defined.


(** ** The score functions in closed form *)

Lemma zip_with_map {A B C D} (f : B -> C -> D) (a : A -> B) (b : A -> C) (l : list A) :
  Vec.zip_with f (map a l) (map b l) = map (fun x => f (a x) (b x)) l.
Proof.
  induction l as [|x l IH]; simpl; [reflexivity | now rewrite IH].
Qed.

Lemma dot_map {A} (f g : A -> R) (l : list A) :
  Vec.dot (map f l) (map g l) = Vec.sum (map (fun x => f x * g x) l).
Proof.
  induction l as [|x l IH]; simpl; [reflexivity | now rewrite IH].
Qed.

Lemma drop_map (g : string -> R) (k : string) (l : list string) :
  drop k (map (fun a => (a, g a)) l)
  = map (fun a => (a, g a)) (filter (fun a => negb (String.eqb a k)) l).
Proof.
  unfold drop. induction l as [|x l IH]; simpl; [reflexivity|].
  destruct (String.eqb x k); simpl; now rewrite IH.
Qed.

Section ScoreFacts.

Variable ratings : list Rating.t.
Variable products : list Product.t.

Lemma item_based_score_closed (u : string) :
  In u (users ratings) ->
  item_based_score ratings products u
  = inr (map (fun p => (p, item_score ratings products u p)) (catalog products)).
Proof.
  intros Hu. unfold item_based_score.
  rewrite loc_row_rating_matrix by assumption. unfold bind.
  rewrite item_similarity_values. unfold ret. f_equal.
  change (index (item_similarity ratings products)) with (catalog products).
  unfold Vec.matvec. rewrite !map_map.
  rewrite (zip_with_map Rdiv). apply combine_map_self.
Qed.

Lemma others_incl (u : string) : incl (others ratings u) (users ratings).
Proof. intros v Hv. unfold others in Hv. now apply filter_In in Hv. Qed.

Lemma user_similarity_column (u : string) :
  In u (users ratings) ->
  get_column (user_similarity ratings products) u
  = inr (map (fun v => (v, Sklearn.cosine (user_vector ratings products v)
                                          (user_vector ratings products u)))
             (users ratings)).
Proof.
  intros Hu. unfold get_column.
  change (columns (user_similarity ratings products)) with (users ratings).
  change (index (user_similarity ratings products)) with (users ratings).
  destruct (index_of_In _ _ Hu) as [j Hj]. rewrite Hj.
  destruct (index_of_nth _ _ _ Hj) as [Hnth Hlt].
  rewrite user_similarity_values. unfold ret. f_equal.
  unfold Vec.column. rewrite map_map.
  rewrite <- combine_map_self. f_equal. apply map_ext. intros v.
  rewrite (nth_indep _ 0 (Sklearn.cosine (user_vector ratings products v)
                            (user_vector ratings products EmptyString)))
    by (rewrite length_map; assumption).
  rewrite (map_nth (fun b => Sklearn.cosine (user_vector ratings products v)
                               (user_vector ratings products b))).
  now rewrite Hnth.
Qed.

Lemma loc_rows_rating_matrix (ks : list string) :
  incl ks (users ratings) ->
  loc_rows (rating_matrix ratings products) ks
  = map (user_vector ratings products) ks.
Proof.
  intros H. unfold loc_rows.
  rewrite rating_matrix_index, rating_matrix_values.
  apply map_ext_in. intros k Hk. now rewrite loc_map by (apply H; assumption).
Qed.

Lemma user_based_score_closed (u : string) :
  In u (users ratings) ->
  user_based_score ratings products u
  = inr (map (fun p => (p, user_score ratings products u p)) (catalog products)).
Proof.
  intros Hu. unfold user_based_score.
  rewrite user_similarity_column by assumption. unfold bind.
  rewrite drop_map. fold (others ratings u).
  rewrite !map_map. simpl fst. simpl snd. rewrite map_id.
  rewrite loc_rows_rating_matrix by apply others_incl.
  rewrite rating_matrix_columns. unfold Vec.vecmat.
  rewrite transpose_user_vectors, !map_map.
  unfold ret. f_equal. apply combine_map_self.
Qed.

Lemma get_hybrid_scores_closed (u : string) (alpha : R) :
  In u (users ratings) ->
  get_hybrid_scores ratings products u alpha
  = inr (map (fun p => (p, hybrid_score ratings products u alpha p))
             (catalog products)).
Proof.
  intros Hu. unfold get_hybrid_scores.
  rewrite rating_matrix_index.
  apply mem_In in Hu as Hm. rewrite Hm. simpl negb. cbv iota.
  rewrite item_based_score_closed, user_based_score_closed by assumption.
  unfold bind. unfold ret. f_equal.
  apply (zip_with_map (fun u0 i => (fst u0, alpha * snd u0 + (1 - alpha) * snd i))).
Qed.

Lemma get_hybrid_scores_unknown (u : string) (alpha : R) :
  ~ In u (users ratings) ->
  get_hybrid_scores ratings products u alpha
  = inl (ValueError ("User " ++ u ++ " not found in rating matrix.")%string).
Proof.
  intros Hu. unfold get_hybrid_scores.
  rewrite rating_matrix_index.
  apply mem_false in Hu. now rewrite Hu.
Qed.

End ScoreFacts.


Section ScoreBounds.

Variable ratings : list Rating.t.
Variable products : list Product.t.

Lemma item_similarity_row_zeros (p : string) :
  Forall (fun a => a = 0) (item_vector ratings p) ->
  Forall (fun a => a = 0) (item_similarity_row ratings products p).
Proof.
  intros H. unfold item_similarity_row. apply Forall_map, Forall_forall.
  intros q _. now apply cosine_zeros_l.
Qed.

Lemma item_score_zero (u p : string) :
  Forall (fun a => a = 0) (item_vector ratings p) ->
  item_score ratings products u p = 0.
Proof.
  intros H. unfold item_score.
  rewrite dot_zeros_l by (now apply item_similarity_row_zeros).
  unfold Rdiv. ring.
Qed.

Lemma user_score_zero (u p : string) :
  Forall (fun a => a = 0) (item_vector ratings p) ->
  user_score ratings products u p = 0.
Proof.
  intros H. unfold user_score. rewrite dot_zeros_r; [unfold Rdiv; ring|].
  unfold item_vector in H. rewrite Forall_map, Forall_forall in H.
  apply Forall_map, Forall_forall. intros v Hv.
  apply H. now apply (others_incl ratings u).
Qed.

Lemma hybrid_score_zero (u : string) (alpha : R) (p : string) :
  Forall (fun a => a = 0) (item_vector ratings p) ->
  hybrid_score ratings products u alpha p = 0.
Proof.
  intros H. unfold hybrid_score.
  rewrite item_score_zero, user_score_zero by assumption. ring.
Qed.

Hypothesis ratings_nonneg : Forall (fun r => 0 <= Rating.rating r) ratings.





End ScoreBounds.

(** C1. For a user of the rating matrix, the item-based score of each
    product [p] is the sum over all products [q] of
    [itemSimilarity(p,q) * rating(user,q)] divided by the sum over all
    products [q] of [itemSimilarity(p,q)], plus epsilon: the denominator runs
    over the whole similarity row. *)
Theorem item_based_score_formula
    (ratings : list Rating.t) (products : list Product.t) (u : string) :
  In u (index (rating_matrix ratings products)) ->
  item_based_score ratings products u
  = inr (map (fun p =>
               (p, spec_item_based_score
                     (fun p q => value_or_zero (at_ (item_similarity ratings products) p q))
                     (fun q => value_or_zero (at_ (rating_matrix ratings products) u q))
                     (columns (rating_matrix ratings products)) p))
             (columns (rating_matrix ratings products))).
Proof.
  rewrite rating_matrix_index, rating_matrix_columns. intros Hu.
  rewrite item_based_score_closed by assumption. f_equal.
  apply map_ext_in. intros p Hp. f_equal.
  unfold item_score, spec_item_based_score, item_similarity_row, user_vector, eps.
  rewrite dot_map. f_equal; [f_equal | f_equal; f_equal]; apply map_ext_in; intros q Hq.
  - now rewrite at_item_similarity, at_rating_matrix by assumption.
  - now rewrite at_item_similarity by assumption.
Qed.

(** C5. For a user of the rating matrix the hybrid scores at [alpha = 0]
    are the item-based scores and at [alpha = 1] the user-based scores. *)
Theorem hybrid_alpha_boundaries
    (ratings : list Rating.t) (products : list Product.t) (u : string) :
  In u (index (rating_matrix ratings products)) ->
  get_hybrid_scores ratings products u 0 = item_based_score ratings products u
  /\ get_hybrid_scores ratings products u 1 = user_based_score ratings products u.
Proof.
  rewrite rating_matrix_index. intros Hu.
  rewrite !get_hybrid_scores_closed, item_based_score_closed, user_based_score_closed
    by assumption.
  split; f_equal; apply map_ext; intros p; f_equal; unfold hybrid_score; ring.
Qed.


(** ** Sorting *)

Lemma firstn_In {A} (n : nat) (l : list A) (x : A) : In x (firstn n l) -> In x l.
Proof.
  intros H. rewrite <- (firstn_skipn n l). apply in_or_app. now left.
Qed.

Section Sortedness.

Context {A : Type} (rel : A -> A -> Prop).

Lemma StronglySorted_filter (f : A -> bool) (l : list A) :
  StronglySorted rel l -> StronglySorted rel (filter f l).
Proof.
  induction 1 as [|x l _ IH Hx]; simpl; [constructor|].
  destruct (f x); [|assumption].
  constructor; [assumption|].
  rewrite Forall_forall in *. intros y Hy. apply Hx.
  now apply filter_In in Hy.
Qed.

Lemma StronglySorted_firstn (n : nat) (l : list A) :
  StronglySorted rel l -> StronglySorted rel (firstn n l).
Proof.
  intros H. revert n. induction H as [|x l _ IH Hx]; intros [|n]; simpl;
    try constructor.
  - apply IH.
  - rewrite Forall_forall in *. intros y Hy. apply Hx.
    now apply (firstn_In n l).
Qed.

Lemma StronglySorted_app (l m : list A) :
  StronglySorted rel l -> StronglySorted rel m ->
  (forall a b, In a l -> In b m -> rel a b) ->
  StronglySorted rel (l ++ m).
Proof.
  intros Hl Hm Hlm. induction Hl as [|x l _ IH Hx]; simpl; [assumption|].
  constructor.
  - apply IH. intros a b Ha Hb. apply Hlm; [now right | assumption].
  - apply Forall_app. split; [assumption|].
    apply Forall_forall. intros b Hb. apply Hlm; [now left | assumption].
Qed.

End Sortedness.

Lemma head_incl {A} (n : Z) (l : list A) : incl (head n l) l.
Proof.
  unfold head. intros x Hx.
  destruct (0 <=? n)%Z; eapply firstn_In; eassumption.
Qed.

Lemma head_sorted {A} (rel : A -> A -> Prop) (n : Z) (l : list A) :
  StronglySorted rel l -> StronglySorted rel (head n l).
Proof.
  intros H. unfold head. destruct (0 <=? n)%Z; now apply StronglySorted_firstn.
Qed.

Lemma head_length {A} (n : Z) (l : list A) :
  (0 <= n)%Z -> List.length (head n l) = Nat.min (Z.to_nat n) (List.length l).
Proof.
  intros H. unfold head. apply Z.leb_le in H. rewrite H. apply length_firstn.
Qed.

Section InsertionSort.

Variable after : R -> R -> bool.

Lemma insert_by_perm (x : string * R) (l : Series) :
  Permutation (insert_by after x l) (x :: l).
Proof.
  induction l as [|y l IH]; simpl; [reflexivity|].
  destruct (after (snd x) (snd y)); [|reflexivity].
  rewrite IH. apply perm_swap.
Qed.

Lemma insertion_sort_perm (s : Series) : Permutation (insertion_sort after s) s.
Proof.
  unfold insertion_sort. induction s as [|x s IH]; simpl; [reflexivity|].
  rewrite insert_by_perm. now constructor.
Qed.

Hypothesis after_true : forall a b, after a b = true -> a <= b.
Hypothesis after_false : forall a b, after a b = false -> b <= a.

Lemma insert_by_sorted (x : string * R) (l : Series) :
  StronglySorted score_ge l -> StronglySorted score_ge (insert_by after x l).
Proof.
  induction 1 as [|y l Hl IH Hy]; simpl.
  - repeat constructor.
  - destruct (after (snd x) (snd y)) eqn:E.
    + constructor; [assumption|].
      rewrite (insert_by_perm x l). constructor; [|assumption].
      unfold score_ge. now apply after_true.
    + apply after_false in E. constructor; [now constructor|].
      constructor; [exact E|].
      rewrite Forall_forall in *. intros z Hz. specialize (Hy z Hz).
      unfold score_ge in *. lra.
Qed.

Lemma insertion_sort_sorted (s : Series) :
  StronglySorted score_ge (insertion_sort after s).
Proof.
  unfold insertion_sort. induction s as [|x s IH]; simpl; [constructor|].
  now apply insert_by_sorted.
Qed.

End InsertionSort.

Lemma Rltb_true (a b : R) : Rltb a b = true -> a <= b.
Proof. unfold Rltb. destruct (Rlt_dec a b); [lra | discriminate]. Qed.

Lemma Rltb_false (a b : R) : Rltb a b = false -> b <= a.
Proof. unfold Rltb. destruct (Rlt_dec a b); [discriminate | lra]. Qed.

Lemma Rgtb_false (a b : R) : Rgtb a b = false <-> ~ b < a.
Proof. unfold Rgtb. destruct (Rlt_dec b a); split; intros; congruence. Qed.

Lemma Rgtb_true (a b : R) : Rgtb a b = true <-> b < a.
Proof. unfold Rgtb. destruct (Rlt_dec b a); split; intros; congruence. Qed.

Lemma Rleb_iff (a b : R) : Rleb a b = true <-> a <= b.
Proof. unfold Rleb. destruct (Rle_dec a b); split; intros; congruence. Qed.

Lemma Rleb_nle (a b : R) : Rleb a b = false <-> ~ a <= b.
Proof. unfold Rleb. destruct (Rle_dec a b); split; intros; congruence. Qed.

Lemma Rltb_irrefl (a : R) : Rltb a a = false.
Proof. unfold Rltb. destruct (Rlt_dec a a); [lra | reflexivity]. Qed.

Lemma Rleb_refl (a : R) : Rleb a a = true.
Proof. unfold Rleb. destruct (Rle_dec a a); [reflexivity | lra]. Qed.

(** The sort that keeps equal values in their original order, as
    [kind="stable"] does. *)
Definition stable_kind : SortKind :=
  mkSortKind stable_sort_values
    (insertion_sort_perm Rltb)
    (insertion_sort_sorted Rltb Rltb_true Rltb_false).

(** The default sort of the library meets the contract as well. *)

Lemma is_indexer_perm (n : nat) (indexer : list nat) :
  is_indexer n indexer = true -> Permutation (seq 0 n) indexer.
Proof.
  unfold is_indexer. intros H. apply andb_prop in H. destruct H as [Hlen Hall].
  apply Nat.eqb_eq in Hlen.
  apply NoDup_Permutation_bis.
  - apply seq_NoDup.
  - rewrite length_seq. lia.
  - intros i Hi. rewrite forallb_forall in Hall. specialize (Hall i Hi).
    apply existsb_exists in Hall. destruct Hall as (j & Hj & E).
    apply Nat.eqb_eq in E. now subst.
Qed.

Lemma take_perm {A} (d : A) (l : list A) (indexer : list nat) :
  is_indexer (List.length l) indexer = true -> Permutation (take d l indexer) l.
Proof.
  intros H. apply is_indexer_perm in H. unfold take.
  transitivity (map (fun i => nth i l d) (seq 0 (List.length l))).
  - apply Permutation_map. now symmetry.
  - rewrite (map_seq_nth (fun x => x) d l), map_id. reflexivity.
Qed.

Lemma is_descending_sorted (s : Series) :
  is_descending s = true -> StronglySorted score_ge s.
Proof.
  induction s as [|x s IH]; simpl; intros H; constructor;
    apply andb_prop in H; destruct H as [Hx Hs].
  - now apply IH.
  - apply Forall_forall. intros y Hy. rewrite forallb_forall in Hx.
    unfold score_ge. apply Rleb_iff, Hx, Hy.
Qed.

Lemma quicksort_sort_values_perm (s : Series) :
  Permutation (quicksort_sort_values s) s.
Proof.
  unfold quicksort_sort_values.
  destruct (nargsort_descending (map snd s)) as [indexer|];
    [|apply (insertion_sort_perm Rltb)].
  destruct (is_indexer (List.length s) indexer) eqn:E; simpl;
    [|apply (insertion_sort_perm Rltb)].
  destruct (is_descending (take (EmptyString, 0) s indexer));
    [|apply (insertion_sort_perm Rltb)].
  now apply take_perm.
Qed.

Lemma quicksort_sort_values_desc (s : Series) :
  StronglySorted score_ge (quicksort_sort_values s).
Proof.
  unfold quicksort_sort_values.
  destruct (nargsort_descending (map snd s)) as [indexer|];
    [|apply (insertion_sort_sorted Rltb Rltb_true Rltb_false)].
  destruct (is_indexer (List.length s) indexer); simpl;
    [|apply (insertion_sort_sorted Rltb Rltb_true Rltb_false)].
  destruct (is_descending (take (EmptyString, 0) s indexer)) eqn:E;
    [|apply (insertion_sort_sorted Rltb Rltb_true Rltb_false)].
  now apply is_descending_sorted.
Qed.

(** The sort [hybrid_recommend] asks for: [sort_values] with its default
    [kind="quicksort"]. *)
Definition quicksort_kind : SortKind :=
  mkSortKind quicksort_sort_values
    quicksort_sort_values_perm
    quicksort_sort_values_desc.

(** The routine uses [less] through its values only. *)

Section ArgsortExt.

Variables less less' : nat -> nat -> bool.
Hypothesis less_ext : forall i j, less i j = less' i j.

Lemma swap_if_less_ext (a : list nat) (i j : nat) :
  Numpy.swap_if_less less a i j = Numpy.swap_if_less less' a i j.
Proof. unfold Numpy.swap_if_less. now rewrite less_ext. Qed.

Lemma scan_up_ext (fuel : nat) (a : list nat) (vp pi : nat) :
  Numpy.scan_up less fuel a vp pi = Numpy.scan_up less' fuel a vp pi.
Proof.
  revert pi. induction fuel as [|f IH]; intros pi; cbn [Numpy.scan_up];
    [reflexivity|].
  now rewrite less_ext, IH.
Qed.

Lemma scan_down_ext (fuel : nat) (a : list nat) (vp pj : nat) :
  Numpy.scan_down less fuel a vp pj = Numpy.scan_down less' fuel a vp pj.
Proof.
  revert pj. induction fuel as [|f IH]; intros pj; cbn [Numpy.scan_down];
    [reflexivity|].
  now rewrite less_ext, IH.
Qed.

Lemma exchange_ext (fuel : nat) (a : list nat) (vp pi pj : nat) :
  Numpy.exchange less fuel a vp pi pj = Numpy.exchange less' fuel a vp pi pj.
Proof.
  revert a pi pj. induction fuel as [|f IH]; intros a pi pj;
    cbn [Numpy.exchange]; [reflexivity|].
  cbv zeta. rewrite scan_up_ext, scan_down_ext.
  destruct (_ <=? _)%nat; [reflexivity | apply IH].
Qed.

Lemma partition_ext (a : list nat) (pl pr : nat) :
  Numpy.partition less a pl pr = Numpy.partition less' a pl pr.
Proof.
  unfold Numpy.partition. cbv zeta.
  now rewrite !swap_if_less_ext, exchange_ext.
Qed.

Lemma shift_ext (fuel : nat) (a : list nat) (vi pl pj : nat) :
  Numpy.shift less fuel a vi pl pj = Numpy.shift less' fuel a vi pl pj.
Proof.
  revert a pj. induction fuel as [|f IH]; intros a pj; cbn [Numpy.shift];
    [reflexivity|].
  now rewrite less_ext, IH.
Qed.

Lemma insertion_ext (count : nat) (a : list nat) (pl pi : nat) :
  Numpy.insertion less count a pl pi = Numpy.insertion less' count a pl pi.
Proof.
  revert a pi. induction count as [|c IH]; intros a pi; cbn [Numpy.insertion];
    [reflexivity|].
  now rewrite shift_ext, IH.
Qed.

Lemma quick_ext (fuel : nat) (a : list nat) (pl pr : nat) (cdepth : Z)
    (stack : list (nat * nat * Z)) (popped : bool) :
  Numpy.quick less fuel a pl pr cdepth stack popped
  = Numpy.quick less' fuel a pl pr cdepth stack popped.
Proof.
  revert a pl pr cdepth stack popped.
  induction fuel as [|f IH]; intros a pl pr cdepth stack popped;
    cbn [Numpy.quick]; [reflexivity|].
  destruct (popped && (cdepth <? 0)%Z); [reflexivity|].
  destruct (Numpy.SMALL_QUICKSORT <? pr - pl)%nat.
  - rewrite partition_ext. destruct (Numpy.partition less' a pl pr) as [a' pi].
    cbv zeta. destruct (pi - pl <? pr - pi)%nat; apply IH.
  - cbv zeta. rewrite insertion_ext.
    destruct stack as [|[[pl' pr'] d] stack']; [reflexivity | apply IH].
Qed.

Lemma aquicksort_ext (num : nat) :
  Numpy.aquicksort less num = Numpy.aquicksort less' num.
Proof. apply quick_ext. Qed.

End ArgsortExt.

Lemma is_descending_complete (s : Series) :
  StronglySorted score_ge s -> is_descending s = true.
Proof.
  induction 1 as [|x s _ IH Hx]; simpl; [reflexivity|].
  rewrite IH, andb_true_r. apply forallb_forall. intros y Hy.
  rewrite Forall_forall in Hx. apply Rleb_iff. exact (Hx y Hy).
Qed.

(** How [quicksort_sort_values] is evaluated on a given series: with the
    comparisons of its values tabulated as [less], the positions the
    routine gives being [order]. *)
Lemma quicksort_sort_values_eval (s : Series) (less : nat -> nat -> bool)
    (order : list nat) :
  (forall i j,
     Rltb (nth i (rev (map snd s)) 0) (nth j (rev (map snd s)) 0) = less i j) ->
  Numpy.aquicksort less (List.length s) = Some order ->
  is_indexer (List.length s)
    (rev (take 0%nat (rev (seq 0 (List.length s))) order)) = true ->
  StronglySorted score_ge
    (take (EmptyString, 0) s
       (rev (take 0%nat (rev (seq 0 (List.length s))) order))) ->
  quicksort_sort_values s
  = take (EmptyString, 0) s
      (rev (take 0%nat (rev (seq 0 (List.length s))) order)).
Proof.
  intros Hless Horder Hidx Hdesc. unfold quicksort_sort_values, nargsort_descending.
  rewrite (aquicksort_ext _ less Hless), length_rev, length_map, Horder.
  cbn [option_map]. rewrite Hidx, (is_descending_complete _ Hdesc). reflexivity.
Qed.

Lemma nth_zeros (l : list R) (i : nat) :
  Forall (fun a => a = 0) l -> nth i l 0 = 0.
Proof.
  intros H. revert i. induction H as [|a l Ha _ IH]; intros [|i]; simpl; auto.
Qed.

Lemma same_score_descending (s : Series) :
  Forall (fun x => snd x = 0) s -> StronglySorted score_ge s.
Proof.
  induction 1 as [|x s Hx Hs IH]; constructor; [assumption|].
  rewrite Forall_forall in *. intros y Hy. unfold score_ge.
  rewrite Hx, (Hs y Hy). lra.
Qed.

(** On a series whose values are all 0 no comparison succeeds. *)
Lemma quicksort_sort_values_ties (s : Series) (order : list nat) :
  Forall (fun x => snd x = 0) s ->
  Numpy.aquicksort (fun _ _ => false) (List.length s) = Some order ->
  is_indexer (List.length s)
    (rev (take 0%nat (rev (seq 0 (List.length s))) order)) = true ->
  quicksort_sort_values s
  = take (EmptyString, 0) s
      (rev (take 0%nat (rev (seq 0 (List.length s))) order)).
Proof.
  intros Hs Horder Hidx.
  apply (quicksort_sort_values_eval s (fun _ _ => false)); try assumption.
  - intros i j.
    rewrite !nth_zeros by (apply Forall_rev, Forall_map; exact Hs).
    apply Rltb_irrefl.
  - apply same_score_descending. unfold take. apply Forall_map, Forall_forall.
    intros i _. rewrite Forall_forall in Hs.
    destruct (nth_in_or_default i s (EmptyString, 0)) as [Hin | ->];
      [now apply Hs | reflexivity].
Qed.


(** ** Selecting the recommendations *)

Lemma boolean_index_map (h : string -> R) (m : string -> bool) (l : list string) :
  boolean_index (map (fun p => (p, h p)) l) (map (fun p => negb (m p)) l)
  = map (fun p => (p, h p)) (filter (fun p => negb (m p)) l).
Proof.
  unfold boolean_index. induction l as [|x l IH]; simpl; [reflexivity|].
  destruct (m x); simpl; now rewrite IH.
Qed.

Lemma filter_length_split {A} (f : A -> bool) (l : list A) :
  (List.length (filter f l) + List.length (filter (fun x => negb (f x)) l)
   = List.length l)%nat.
Proof.
  induction l as [|x l IH]; simpl; [reflexivity|].
  destruct (f x); simpl; lia.
Qed.

Lemma same_score_sorted (c : R) (l : list Recommendation) :
  (forall a, In a l -> rec_score a = c) -> StronglySorted rec_ge l.
Proof.
  induction l as [|x l IH]; intros H; constructor.
  - apply IH. intros a Ha. apply H. now right.
  - apply Forall_forall. intros y Hy. unfold rec_ge.
    rewrite (H x), (H y); simpl; auto. lra.
Qed.

Lemma price_within_spec (lim : R) (r : Recommendation) :
  price_within lim r = true <-> exists x, rec_price r = Some x /\ x <= lim.
Proof.
  unfold price_within. destruct (rec_price r) as [x|].
  - rewrite Rleb_iff. split; [eauto|]. intros (y & Hy & Hle). now injection Hy as ->.
  - split; [discriminate|]. intros (y & Hy & _). discriminate.
Qed.

Lemma category_is_spec (c : string) (r : Recommendation) :
  category_is c r = true <-> rec_category r = Some c.
Proof.
  unfold category_is. destruct (rec_category r) as [d|].
  - rewrite String.eqb_eq. split; congruence.
  - split; discriminate.
Qed.

Lemma apply_filters_In (price_limit : option R) (category : option string)
    (recs : list Recommendation) (r : Recommendation) :
  In r (apply_filters price_limit category recs) <->
  In r recs
  /\ (forall lim, price_limit = Some lim -> exists x, rec_price r = Some x /\ x <= lim)
  /\ (forall c, category = Some c -> rec_category r = Some c).
Proof.
  unfold apply_filters.
  destruct category as [c|], price_limit as [lim|];
    rewrite ?filter_In, ?price_within_spec, ?category_is_spec.
  - split.
    + intros [[H1 H2] H3]. repeat split; [assumption| |]; intros ? [= <-]; assumption.
    + intros (H1 & H2 & H3). auto.
  - split.
    + intros [H1 H3]. repeat split; [assumption|discriminate|].
      intros ? [= <-]; assumption.
    + intros (H1 & _ & H3). auto.
  - split.
    + intros [H1 H2]. repeat split; [assumption| |discriminate].
      intros ? [= <-]; assumption.
    + intros (H1 & H2 & _). auto.
  - split.
    + intros H1. repeat split; [assumption|discriminate|discriminate].
    + tauto.
Qed.

Lemma filter_twice {A} (f g : A -> bool) (l : list A) :
  filter g (filter f l) = filter (fun x => f x && g x) l.
Proof.
  induction l as [|x l IH]; simpl; [reflexivity|].
  destruct (f x); simpl; [destruct (g x)|]; now rewrite IH.
Qed.

Lemma filter_all {A} (f : A -> bool) (l : list A) :
  (forall x, In x l -> f x = true) -> filter f l = l.
Proof.
  induction l as [|x l IH]; simpl; intros H; [reflexivity|].
  rewrite (H x) by now left. f_equal. apply IH. intros y Hy. apply H. now right.
Qed.

Lemma filter_none {A} (f : A -> bool) (l : list A) :
  (forall x, In x l -> f x = false) -> filter f l = [].
Proof.
  induction l as [|x l IH]; simpl; intros H; [reflexivity|].
  rewrite (H x) by now left. apply IH. intros y Hy. apply H. now right.
Qed.

(** The row test the two filters amount to. *)
Definition passes (price_limit : option R) (category : option string)
    (r : Recommendation) : bool :=
  match price_limit with Some lim => price_within lim r | None => true end
  && match category with Some c => category_is c r | None => true end.

Lemma apply_filters_filter (price_limit : option R) (category : option string)
    (recs : list Recommendation) :
  apply_filters price_limit category recs
  = filter (passes price_limit category) recs.
Proof.
  unfold apply_filters, passes. destruct price_limit as [lim|], category as [c|].
  - apply filter_twice.
  - apply filter_ext. intros r. now rewrite andb_true_r.
  - reflexivity.
  - symmetry. now apply filter_all.
Qed.

Section SelectionFacts.

Variable ratings : list Rating.t.
Variable products : list Product.t.
Variable kind : SortKind.

Lemma merge_row_In (x : string * R) (r : Recommendation) :
  In r (merge_row products x) -> rec_product r = fst x /\ rec_score r = snd x.
Proof.
  unfold merge_row.
  destruct (filter _ products) as [|m ms]; intros H.
  - destruct H as [<-|[]]. auto.
  - apply in_map_iff in H. destruct H as (q & <- & _). auto.
Qed.

Lemma merge_left_In (recs : Series) (r : Recommendation) :
  In r (merge_left products recs) -> In (rec_product r, rec_score r) recs.
Proof.
  unfold merge_left. intros H. apply in_flat_map in H.
  destruct H as (x & Hx & Hr). apply merge_row_In in Hr.
  destruct Hr as [-> ->]. now destruct x.
Qed.

Lemma merge_left_sorted (recs : Series) :
  StronglySorted score_ge recs -> StronglySorted rec_ge (merge_left products recs).
Proof.
  induction 1 as [|x l _ IH Hx]; [constructor|].
  unfold merge_left. simpl. apply StronglySorted_app.
  - apply (same_score_sorted (snd x)). intros a Ha. now apply merge_row_In in Ha.
  - exact IH.
  - intros a b Ha Hb. apply merge_row_In in Ha. destruct Ha as [_ Ha].
    apply merge_left_In in Hb. rewrite Forall_forall in Hx.
    specialize (Hx _ Hb). unfold rec_ge, score_ge in *. simpl in Hx. lra.
Qed.

Lemma no_product_row (k : string) (ps : list Product.t) :
  ~ In k (map Product.product ps) ->
  filter (fun p => String.eqb (Product.product p) k) ps = [].
Proof.
  induction ps as [|x ps IH]; simpl; [reflexivity|]. intros H.
  destruct (String.eqb (Product.product x) k) eqn:E.
  - apply String.eqb_eq in E. exfalso. apply H. now left.
  - apply IH. intros Hin. apply H. now right.
Qed.

Lemma one_product_row (k : string) (ps : list Product.t) :
  NoDup (map Product.product ps) -> In k (map Product.product ps) ->
  List.length (filter (fun p => String.eqb (Product.product p) k) ps) = 1%nat.
Proof.
  induction ps as [|x ps IH]; simpl; [contradiction|].
  intros Hnd Hin. inversion Hnd as [|? ? Hx Hnd']; subst.
  destruct (String.eqb (Product.product x) k) eqn:E.
  - apply String.eqb_eq in E. subst. now rewrite no_product_row.
  - apply IH; [assumption|]. destruct Hin as [Hin|Hin]; [|assumption].
    subst. rewrite String.eqb_refl in E. discriminate.
Qed.

Lemma merge_left_length (recs : Series) :
  NoDup (catalog products) ->
  (forall x, In x recs -> In (fst x) (catalog products)) ->
  List.length (merge_left products recs) = List.length recs.
Proof.
  intros Hnd. unfold merge_left.
  induction recs as [|x recs IH]; intros H; simpl; [reflexivity|].
  rewrite length_app, IH by (intros y Hy; apply H; now right).
  assert (H1 : List.length (merge_row products x) = 1%nat); [|lia].
  unfold merge_row.
  pose proof (one_product_row (fst x) products Hnd (H x (or_introl eq_refl))) as H1.
  destruct (filter _ products) as [|m ms]; [discriminate|].
  now rewrite length_map.
Qed.

Lemma apply_filters_incl (price_limit : option R) (category : option string)
    (recs : list Recommendation) :
  incl (apply_filters price_limit category recs) recs.
Proof.
  intros r. unfold apply_filters.
  destruct category as [c|], price_limit as [lim|]; intros H;
    repeat (apply filter_In in H; destruct H as [H _]); assumption.
Qed.

Lemma apply_filters_sorted (price_limit : option R) (category : option string)
    (recs : list Recommendation) :
  StronglySorted rec_ge recs ->
  StronglySorted rec_ge (apply_filters price_limit category recs).
Proof.
  intros H. unfold apply_filters.
  destruct category as [c|], price_limit as [lim|];
    repeat apply StronglySorted_filter; assumption.
Qed.

Lemma candidates_closed (h : string -> R) (u : string) :
  candidates (map (fun p => (p, h p)) (catalog products))
             (user_vector ratings products u)
  = map (fun p => (p, h p)) (unrated ratings products u).
Proof.
  unfold candidates, user_vector, unrated. rewrite !map_map.
  apply (boolean_index_map h (fun p => Rgtb (cell ratings u p) 0)).
Qed.

Lemma top_ranked_closed (u : string) (alpha : R) (top_n : Z) :
  In u (users ratings) ->
  top_ranked ratings products kind u alpha top_n
  = inr (merge_left products (ranked ratings products kind u alpha top_n)).
Proof.
  intros Hu. unfold top_ranked.
  rewrite get_hybrid_scores_closed by assumption. unfold bind.
  rewrite loc_row_rating_matrix by assumption.
  now rewrite candidates_closed.
Qed.

Lemma hybrid_recommend_closed (u : string) (alpha : R) (top_n : Z)
    (price_limit : option R) (category : option string) :
  In u (users ratings) ->
  hybrid_recommend ratings products kind u alpha top_n price_limit category
  = inr (apply_filters price_limit category
           (merge_left products (ranked ratings products kind u alpha top_n))).
Proof.
  intros Hu. unfold hybrid_recommend. now rewrite top_ranked_closed.
Qed.

Lemma hybrid_recommend_unknown (u : string) (alpha : R) (top_n : Z)
    (price_limit : option R) (category : option string) :
  ~ In u (users ratings) ->
  hybrid_recommend ratings products kind u alpha top_n price_limit category
  = inl (ValueError ("User " ++ u ++ " not found in rating matrix.")%string).
Proof.
  intros Hu. unfold hybrid_recommend, top_ranked.
  now rewrite get_hybrid_scores_unknown.
Qed.

Lemma ranked_In (u : string) (alpha : R) (top_n : Z) (x : string * R) :
  In x (ranked ratings products kind u alpha top_n) -> In (fst x) (unrated ratings products u).
Proof.
  intros H. unfold ranked in H. apply head_incl in H.
  apply (Permutation_in _ (sort_values_perm kind _)) in H.
  apply in_map_iff in H. destruct H as (p & <- & Hp). exact Hp.
Qed.

Lemma ranked_sorted (u : string) (alpha : R) (top_n : Z) :
  StronglySorted score_ge (ranked ratings products kind u alpha top_n).
Proof.
  unfold ranked. apply head_sorted. apply sort_values_desc.
Qed.

Lemma ranked_length (u : string) (alpha : R) (top_n : Z) :
  (0 <= top_n)%Z ->
  List.length (ranked ratings products kind u alpha top_n)
  = Nat.min (Z.to_nat top_n) (List.length (unrated ratings products u)).
Proof.
  intros H. unfold ranked. rewrite head_length by assumption.
  now rewrite (Permutation_length (sort_values_perm kind _)), length_map.
Qed.

End SelectionFacts.

(** C8. For a user that is not in the index of the rating matrix
    [get_hybrid_scores] raises its unknown-user error (a [ValueError] naming
    the user) and [hybrid_recommend] fails with the same error; for a user
    that is in the index both return a value. *)
Theorem unknown_user_error
    (ratings : list Rating.t) (products : list Product.t) (kind : SortKind)
    (u : string) (alpha : R) :
  (~ In u (index (rating_matrix ratings products)) ->
     let e := ValueError ("User " ++ u ++ " not found in rating matrix.")%string in
     get_hybrid_scores ratings products u alpha = inl e
     /\ forall top_n price_limit category,
          hybrid_recommend ratings products kind u alpha top_n price_limit category
          = inl e)
  /\ (In u (index (rating_matrix ratings products)) ->
     (exists scores, get_hybrid_scores ratings products u alpha = inr scores)
     /\ forall top_n price_limit category, exists recs,
          hybrid_recommend ratings products kind u alpha top_n price_limit category
          = inr recs).
Proof.
  rewrite rating_matrix_index. split; intros Hu.
  - split; [now apply get_hybrid_scores_unknown|].
    intros. now apply hybrid_recommend_unknown.
  - split.
    + eexists. now apply get_hybrid_scores_closed.
    + intros. eexists. now apply hybrid_recommend_closed.
Qed.

(** What the mask [rating > 0] does exclude: a product returned by
    [hybrid_recommend] for a user has no positive rating by that user in
    the rating matrix.  Where no rating is negative its rating is then 0. *)
Lemma positive_ratings_excluded
    (ratings : list Rating.t) (products : list Product.t) (kind : SortKind)
    (u : string) (alpha : R) (top_n : Z)
    (price_limit : option R) (category : option string)
    (out : list Recommendation) (rec : Recommendation) :
  hybrid_recommend ratings products kind u alpha top_n price_limit category = inr out ->
  In rec out ->
  exists r,
    at_ (rating_matrix ratings products) u (rec_product rec) = Some r
    /\ ~ 0 < r
    /\ (Forall (fun x => 0 <= Rating.rating x) ratings -> r = 0).
Proof.
  intros Hrun Hin.
  destruct (in_dec string_dec u (users ratings)) as [Hu|Hu];
    [|rewrite hybrid_recommend_unknown in Hrun by assumption; discriminate].
  rewrite hybrid_recommend_closed in Hrun by assumption. injection Hrun as <-.
  apply apply_filters_incl, merge_left_In, ranked_In in Hin. simpl in Hin.
  unfold unrated in Hin. apply filter_In in Hin. destruct Hin as [Hp Hm].
  apply negb_true_iff, Rgtb_false in Hm.
  exists (cell ratings u (rec_product rec)).
  split; [now apply at_rating_matrix|].
  split; [assumption|].
  intros Hnn. pose proof (cell_nonneg ratings u (rec_product rec) Hnn). lra.
Qed.

(** C4. The price and category filters run on the frame already cut to
    its first [top_n] rows.  [hybrid_recommend] returns the rows of that
    frame, in their order, that pass both filters and no other row: a row
    passes when, a price limit being given, it has a price and this price
    is at most the limit, and, a category being given, its category is
    that one.  So no row is brought in from a later rank, and when a price
    limit alone rejects exactly one of [top_n] such rows the result has
    [top_n - 1] rows.  With unique product ids the cut frame has at most
    [top_n] rows, and exactly [top_n] when the user has that many
    candidates. *)
Theorem filters_after_truncation
    (ratings : list Rating.t) (products : list Product.t) (kind : SortKind)
    (u : string) (alpha : R) (top_n : Z) :
  In u (index (rating_matrix ratings products)) ->
  exists top,
    top_ranked ratings products kind u alpha top_n = inr top
    /\ (forall price_limit category,
          hybrid_recommend ratings products kind u alpha top_n price_limit category
          = inr (apply_filters price_limit category top))
    /\ (forall price_limit category,
          exists keep : Recommendation -> bool,
            apply_filters price_limit category top = filter keep top
            /\ forall r,
                 keep r = true <->
                 (forall lim, price_limit = Some lim ->
                              exists x, rec_price r = Some x /\ x <= lim)
                 /\ (forall c, category = Some c -> rec_category r = Some c))
    /\ (forall price_limit category r,
          In r (apply_filters price_limit category top) -> In r top)
    /\ (forall lim,
          Z.of_nat (List.length top) = top_n ->
          List.length (filter (fun r => negb (price_within lim r)) top) = 1%nat ->
          Z.of_nat (List.length (apply_filters (Some lim) None top)) = (top_n - 1)%Z)
    /\ (NoDup (catalog products) -> (0 <= top_n)%Z ->
          (Z.of_nat (List.length top) <= top_n)%Z
          /\ ((top_n <= Z.of_nat (List.length (unrated ratings products u)))%Z ->
              Z.of_nat (List.length top) = top_n)).
Proof.
  rewrite rating_matrix_index. intros Hu.
  exists (merge_left products (ranked ratings products kind u alpha top_n)).
  split; [now apply top_ranked_closed|].
  split; [intros; now apply hybrid_recommend_closed|].
  split.
  { intros pl c. exists (passes pl c). split; [apply apply_filters_filter|].
    intros r. unfold passes. rewrite andb_true_iff.
    destruct pl as [lim|], c as [d|];
      rewrite ?price_within_spec, ?category_is_spec.
    - split.
      + intros [H1 H2]. split; intros ? [= <-]; assumption.
      + intros [H1 H2]. auto.
    - split.
      + intros [H1 _]. split; [intros ? [= <-]; assumption | discriminate].
      + intros [H1 _]. auto.
    - split.
      + intros [_ H2]. split; [discriminate | intros ? [= <-]; assumption].
      + intros [_ H2]. auto.
    - split; [|auto]. intros _. split; discriminate. }
  split; [intros pl c r; apply apply_filters_incl|].
  split.
  - intros lim Hlen Hone. unfold apply_filters.
    pose proof (filter_length_split (price_within lim)
                  (merge_left products (ranked ratings products kind u alpha top_n))).
    lia.
  - intros Hnd Hn.
    rewrite merge_left_length, ranked_length; try assumption.
    + lia.
    + intros x Hx. apply ranked_In in Hx. unfold unrated in Hx.
      now apply filter_In in Hx.
Qed.


(** ** The small data set, evaluated *)

Ltac eval_cell := unfold cell, mean, group; simpl.

Lemma demo_user : In "U1"%string (users demo_ratings).
Proof. simpl. auto. Qed.

Lemma demo_nonneg : Forall (fun r => 0 <= Rating.rating r) demo_ratings.
Proof. repeat constructor; simpl; lra. Qed.

Lemma demo_unrated : unrated demo_ratings demo_products "U1" = ["B"; "C"; "D"]%string.
Proof.
  unfold unrated, catalog, demo_products. simpl map. unfold filter.
  replace (Rgtb (cell demo_ratings "U1" "A") 0) with true.
  - replace (Rgtb (cell demo_ratings "U1" "B") 0) with false
      by (symmetry; apply Rgtb_false; eval_cell; lra).
    replace (Rgtb (cell demo_ratings "U1" "C") 0) with false
      by (symmetry; apply Rgtb_false; eval_cell; lra).
    replace (Rgtb (cell demo_ratings "U1" "D") 0) with false
      by (symmetry; apply Rgtb_false; eval_cell; lra).
    reflexivity.
  - symmetry. apply Rgtb_true. eval_cell. lra.
Qed.

Lemma demo_no_rating (p : string) :
  In p ["B"; "C"; "D"]%string -> Forall (fun a => a = 0) (item_vector demo_ratings p).
Proof.
  intros [<-|[<-|[<-|[]]]]; repeat constructor.
Qed.

Lemma demo_candidates (alpha : R) :
  map (fun p => (p, hybrid_score demo_ratings demo_products "U1" alpha p))
      (unrated demo_ratings demo_products "U1")
  = [("B", 0); ("C", 0); ("D", 0)]%string.
Proof.
  rewrite demo_unrated. simpl.
  rewrite !hybrid_score_zero by (apply demo_no_rating; simpl; auto).
  reflexivity.
Qed.

Lemma demo_ranked_stable (alpha : R) :
  ranked demo_ratings demo_products stable_kind "U1" alpha 2
  = [("B", 0); ("C", 0)]%string.
Proof.
  unfold ranked. rewrite demo_candidates.
  simpl. rewrite Rltb_irrefl. simpl. rewrite Rltb_irrefl. reflexivity.
Qed.

Lemma demo_recommend_stable (alpha : R) :
  hybrid_recommend demo_ratings demo_products stable_kind "U1" alpha 2 (Some 30) None
  = inr [mkRec "C" 0 (Some "Chisel") (Some "Tools") (Some 20) (Some "c.png")]%string.
Proof.
  rewrite hybrid_recommend_closed by apply demo_user.
  rewrite demo_ranked_stable. simpl.
  unfold price_within. simpl.
  replace (Rleb 50 30) with false by (symmetry; apply Rleb_nle; lra).
  replace (Rleb 20 30) with true by (symmetry; apply Rleb_iff; lra).
  reflexivity.
Qed.

Lemma demo_ranked_all (alpha : R) :
  ranked demo_ratings demo_products stable_kind "U1" alpha 5
  = [("B", 0); ("C", 0); ("D", 0)]%string.
Proof.
  unfold ranked. rewrite demo_candidates.
  simpl. rewrite Rltb_irrefl. simpl. rewrite !Rltb_irrefl. reflexivity.
Qed.

Lemma demo_recommend_all (alpha : R) :
  hybrid_recommend demo_ratings demo_products stable_kind "U1" alpha 5 None None
  = inr [mkRec "B" 0 (Some "Bellows") (Some "Tools") (Some 50) (Some "b.png");
         mkRec "C" 0 (Some "Chisel") (Some "Tools") (Some 20) (Some "c.png");
         mkRec "D" 0 (Some "Drill") (Some "Power") (Some 5) (Some "d.png")]%string.
Proof.
  rewrite hybrid_recommend_closed by apply demo_user.
  rewrite demo_ranked_all. reflexivity.
Qed.

(** ** The statements at the small data set *)

Lemma item_based_score_formula_witness :
  item_based_score demo_ratings demo_products "U1"
  = inr (map (fun p =>
               (p, spec_item_based_score
                     (fun p q => value_or_zero
                                   (at_ (item_similarity demo_ratings demo_products) p q))
                     (fun q => value_or_zero
                                 (at_ (rating_matrix demo_ratings demo_products) "U1" q))
                     (columns (rating_matrix demo_ratings demo_products)) p))
             (columns (rating_matrix demo_ratings demo_products))).
Proof.
  apply (item_based_score_formula demo_ratings demo_products "U1").
  simpl. auto.
Defined.

Lemma hybrid_alpha_boundaries_witness :
  get_hybrid_scores demo_ratings demo_products "U1" 0
  = item_based_score demo_ratings demo_products "U1"
  /\ get_hybrid_scores demo_ratings demo_products "U1" 1
     = user_based_score demo_ratings demo_products "U1".
Proof.
  apply (hybrid_alpha_boundaries demo_ratings demo_products "U1").
  simpl. auto.
Defined.

Lemma unknown_user_error_witness :
  get_hybrid_scores demo_ratings demo_products "NO_SUCH_USER" (5 / 10)
  = inl (ValueError "User NO_SUCH_USER not found in rating matrix.")
  /\ exists scores, get_hybrid_scores demo_ratings demo_products "U1" (5 / 10) = inr scores.
Proof.
  split.
  - apply (unknown_user_error demo_ratings demo_products stable_kind
             "NO_SUCH_USER" (5 / 10)).
    simpl. intros [H|[H|[]]]; discriminate.
  - apply (unknown_user_error demo_ratings demo_products stable_kind "U1" (5 / 10)).
    simpl. auto.
Defined.


Lemma positive_ratings_excluded_witness :
  exists r,
    at_ (rating_matrix demo_ratings demo_products) "U1" "C" = Some r
    /\ ~ 0 < r
    /\ (Forall (fun x => 0 <= Rating.rating x) demo_ratings -> r = 0).
Proof.
  apply (positive_ratings_excluded demo_ratings demo_products stable_kind
           "U1" (6 / 10) 2 (Some 30) None
           [mkRec "C" 0 (Some "Chisel") (Some "Tools") (Some 20) (Some "c.png")]%string
           (mkRec "C" 0 (Some "Chisel") (Some "Tools") (Some 20) (Some "c.png"))%string).
  - apply demo_recommend_stable.
  - simpl. auto.
Defined.

(** Two candidates are kept, B and C, both of category Tools.  A price
    limit of 30 rejects B and the result has one row: product D, third in
    rank and cheap enough, is not brought in.  Asked for the category
    Power, which is that of D alone, the result is empty. *)
Lemma filters_after_truncation_witness :
  (exists out,
     hybrid_recommend demo_ratings demo_products stable_kind "U1" (6 / 10) 2
                      (Some 30) None
     = inr out
     /\ Z.of_nat (List.length out) = (2 - 1)%Z)
  /\ hybrid_recommend demo_ratings demo_products stable_kind "U1" (6 / 10) 2
                      None (Some "Power"%string)
     = inr [].
Proof.
  destruct (filters_after_truncation demo_ratings demo_products stable_kind
              "U1" (6 / 10) 2)
    as (top & Htop & Hrun & Hkeep & _ & Hlen & _).
  - simpl. auto.
  - rewrite top_ranked_closed, demo_ranked_stable in Htop by apply demo_user.
    injection Htop as <-.
    split.
    + eexists. split; [apply Hrun|]. apply Hlen; [reflexivity|].
      simpl. unfold price_within. simpl.
      replace (Rleb 50 30) with false by (symmetry; apply Rleb_nle; lra).
      replace (Rleb 20 30) with true by (symmetry; apply Rleb_iff; lra).
      reflexivity.
    + destruct (Hkeep None (Some "Power"%string)) as (keep & Hfilter & Hk).
      rewrite Hrun, Hfilter. apply f_equal.
      apply filter_none.
      intros r Hr. destruct (keep r) eqn:E; [|reflexivity].
      apply Hk in E. destruct E as [_ E]. specialize (E _ eq_refl).
      simpl in Hr. destruct Hr as [<-|[<-|[]]]; discriminate.
Defined.

(** ** The normalisation base of the item-based score

    On the second data set the item vectors of A and B are (3, 4) and
    (0, 4), of cosine 4/5.  For user U1, who rated only A, the score of B
    divides by the whole similarity row; dividing by the similarities to
    rated products only would give another number. *)

Lemma row_norm_3_4 : Sklearn.row_norm [3; 4] = 5.
Proof.
  unfold Sklearn.row_norm. simpl.
  replace (3 * 3 + (4 * 4 + 0)) with (5 * 5) by lra.
  apply sqrt_square. lra.
Qed.

Lemma row_norm_0_4 : Sklearn.row_norm [0; 4] = 4.
Proof.
  unfold Sklearn.row_norm. simpl.
  replace (0 * 0 + (4 * 4 + 0)) with (4 * 4) by lra.
  apply sqrt_square. lra.
Qed.

Lemma handle_zeros_large (n : R) : 1 <= n -> Sklearn.handle_zeros_in_scale n = n.
Proof.
  intros H. unfold Sklearn.handle_zeros_in_scale.
  destruct (Rlt_dec n (10 * Sklearn.eps64)) as [Hlt|_]; [|reflexivity].
  exfalso. unfold Sklearn.eps64 in Hlt.
  assert (H52 : 16 <= 2 ^ 52).
  { replace (2 ^ 52) with (2 ^ 4 * 2 ^ 48) by (rewrite <- pow_add; reflexivity).
    assert (1 <= 2 ^ 48) by (apply pow_R1_Rle; lra).
    replace (2 ^ 4) with 16 by (simpl; lra). lra. }
  assert (Hinv : / 2 ^ 52 <= / 16) by (apply Rinv_le_contravar; lra).
  lra.
Qed.

Lemma overlap_item_vector_A : item_vector overlap_ratings "A" = [3; 4].
Proof.
  unfold item_vector. simpl. eval_cell. repeat f_equal; lra.
Qed.

Lemma overlap_item_vector_B : item_vector overlap_ratings "B" = [0; 4].
Proof.
  unfold item_vector. simpl. eval_cell. repeat f_equal; lra.
Qed.

Lemma overlap_similarity_B_A :
  at_ (item_similarity overlap_ratings overlap_products) "B" "A" = Some (4 / 5).
Proof.
  rewrite at_item_similarity by (simpl; auto).
  rewrite overlap_item_vector_A, overlap_item_vector_B, cosine_formula.
  rewrite row_norm_3_4, row_norm_0_4, !handle_zeros_large by lra.
  simpl. f_equal. lra.
Qed.

(** The similarity of A and B, 4/5, read in both directions, and the
    similarity of U1 and U2 over the reals and in binary64. *)
Lemma similarity_symmetric_witness :
  at_ (item_similarity overlap_ratings overlap_products) "A" "B" = Some (4 / 5)
  /\ (exists s,
        at_ (user_similarity overlap_ratings overlap_products) "U1" "U2" = Some s
        /\ at_ (user_similarity overlap_ratings overlap_products) "U2" "U1" = Some s)
  /\ at_ (F64.user_similarity overlap_ratings64 overlap_products) "U1" "U2"
     = at_ (F64.user_similarity overlap_ratings64 overlap_products) "U2" "U1".
Proof.
  destruct (similarity_symmetric overlap_ratings overlap_ratings64 overlap_products)
    as (Hitem & Huser & _ & Huser64).
  split; [|split].
  - destruct (Hitem "A"%string "B"%string) as (s & HAB & HBA);
      [simpl; auto | simpl; auto |].
    rewrite overlap_similarity_B_A in HBA. injection HBA as <-. exact HAB.
  - apply Huser; simpl; auto.
  - apply Huser64.
Defined.

Lemma overlap_similarity_B_B :
  at_ (item_similarity overlap_ratings overlap_products) "B" "B" = Some 1.
Proof.
  rewrite at_item_similarity by (simpl; auto).
  rewrite overlap_item_vector_B, cosine_formula.
  rewrite row_norm_0_4, !handle_zeros_large by lra.
  simpl. f_equal. lra.
Qed.

Lemma overlap_rating_A :
  at_ (rating_matrix overlap_ratings overlap_products) "U1" "A" = Some 3.
Proof.
  rewrite at_rating_matrix by (simpl; auto). eval_cell. f_equal. lra.
Qed.

Lemma overlap_rating_B :
  at_ (rating_matrix overlap_ratings overlap_products) "U1" "B" = Some 0.
Proof.
  rewrite at_rating_matrix by (simpl; auto). reflexivity.
Qed.

Lemma whole_row_normalisation :
  let sim p q := value_or_zero (at_ (item_similarity overlap_ratings overlap_products) p q) in
  let rating q := value_or_zero (at_ (rating_matrix overlap_ratings overlap_products) "U1" q) in
  let all_products := columns (rating_matrix overlap_ratings overlap_products) in
  In ("B"%string, spec_item_based_score sim rating all_products "B")
     (match item_based_score overlap_ratings overlap_products "U1" with
      | inr scores => scores
      | inl _ => []
      end)
  /\ spec_item_based_score sim rating all_products "B" = (12 / 5) / (9 / 5 + 1e-9)
  /\ rated_only_item_score sim rating all_products "B" = (12 / 5) / (4 / 5 + 1e-9)
  /\ spec_item_based_score sim rating all_products "B"
     <> rated_only_item_score sim rating all_products "B".
Proof.
  intros sim rating all_products.
  assert (Hspec : spec_item_based_score sim rating all_products "B"
                  = (12 / 5) / (9 / 5 + 1e-9)).
  { unfold spec_item_based_score, sim, rating, all_products.
    change (columns (rating_matrix overlap_ratings overlap_products))
      with ["A"; "B"]%string.
    cbn [map].
    rewrite overlap_similarity_B_A, overlap_similarity_B_B,
      overlap_rating_A, overlap_rating_B.
    cbn [value_or_zero Vec.sum fold_right]. f_equal; lra. }
  assert (Hrated : rated_only_item_score sim rating all_products "B"
                   = (12 / 5) / (4 / 5 + 1e-9)).
  { unfold rated_only_item_score, sim, rating, all_products.
    change (columns (rating_matrix overlap_ratings overlap_products))
      with ["A"; "B"]%string.
    cbn [filter].
    rewrite overlap_rating_A, overlap_rating_B. cbn [value_or_zero].
    replace (Rgtb 3 0) with true by (symmetry; apply Rgtb_true; lra).
    replace (Rgtb 0 0) with false by (symmetry; apply Rgtb_false; lra).
    cbn [map]. rewrite overlap_similarity_B_A, overlap_rating_A.
    cbn [value_or_zero Vec.sum fold_right]. f_equal; lra. }
  split.
  { rewrite item_based_score_closed by (simpl; auto).
    apply in_map_iff. exists "B"%string. split; [reflexivity | simpl; auto]. }
  split; [exact Hspec|]. split; [exact Hrated|].
  rewrite Hspec, Hrated. intros H.
  apply (f_equal (fun x => x * (9 / 5 + 1e-9) * (4 / 5 + 1e-9))) in H.
  field_simplify in H; lra.
Qed.

(** ** What a stable sort would give

    With the stable algorithm (and unique product ids) equal scores do come
    out in catalog order: the order of ties is decided by the sorting
    algorithm alone. *)

Lemma index_of_app (k : string) (pre l : list string) :
  ~ In k pre ->
  index_of k (pre ++ l) = option_map (Nat.add (List.length pre)) (index_of k l).
Proof.
  induction pre as [|x pre IH]; simpl; intros H.
  - now destruct (index_of k l).
  - destruct (String.eqb x k) eqn:E.
    + apply String.eqb_eq in E. exfalso. apply H. now left.
    + rewrite IH by (intros Hin; apply H; now right).
      now destruct (index_of k l).
Qed.

Lemma NoDup_app_disjoint {A} (l m : list A) (a : A) :
  NoDup (l ++ m) -> In a l -> In a m -> False.
Proof.
  induction l as [|x l IH]; simpl; [contradiction|].
  intros Hnd [->|Hl] Hm; inversion Hnd as [|? ? Hx Hnd']; subst.
  - apply Hx, in_or_app. now right.
  - now apply IH.
Qed.

Lemma catalog_order_suffix (pre l : list string) :
  NoDup (pre ++ l) -> StronglySorted (before_in (pre ++ l)) l.
Proof.
  revert pre. induction l as [|x l IH]; intros pre Hnd; constructor.
  - replace (pre ++ x :: l) with ((pre ++ [x]) ++ l) by (now rewrite <- app_assoc).
    apply IH. now rewrite <- app_assoc.
  - apply NoDup_remove in Hnd as Hx. destruct Hx as [_ Hx].
    assert (Hpre : ~ In x pre) by (intros H; apply Hx, in_or_app; now left).
    apply Forall_forall. intros y Hy.
    assert (Hyp : ~ In y pre).
    { intros H. apply (NoDup_app_disjoint pre (x :: l) y Hnd H). now right. }
    assert (Hxy : String.eqb x y = false).
    { apply String.eqb_neq. intros ->. apply Hx, in_or_app. now right. }
    destruct (index_of_In _ _ Hy) as [n Hn].
    exists (List.length pre + 0)%nat, (List.length pre + S n)%nat.
    rewrite !index_of_app by assumption. simpl.
    rewrite String.eqb_refl, Hxy, Hn. simpl. repeat split. lia.
Qed.

Lemma catalog_order (l : list string) :
  NoDup l -> StronglySorted (before_in l) l.
Proof. apply (catalog_order_suffix []). Qed.

Lemma StronglySorted_map {A B} (rel : B -> B -> Prop) (f : A -> B) (l : list A) :
  StronglySorted (fun a b => rel (f a) (f b)) l -> StronglySorted rel (map f l).
Proof.
  induction 1 as [|x l _ IH Hx]; simpl; constructor; [assumption|].
  now apply Forall_map.
Qed.

Lemma StronglySorted_nth_error {A} (rel : A -> A -> Prop) (l : list A)
    (i j : nat) (a b : A) :
  StronglySorted rel l -> (i < j)%nat ->
  nth_error l i = Some a -> nth_error l j = Some b -> rel a b.
Proof.
  intros H. revert i j. induction H as [|x l _ IH Hx]; intros i j Hij Ha Hb.
  - destruct i; discriminate.
  - destruct j as [|j]; [lia|]. simpl in Hb. destruct i as [|i]; simpl in Ha.
    + injection Ha as <-. rewrite Forall_forall in Hx.
      apply Hx. eapply nth_error_In. eassumption.
    + apply (IH i j); [lia | assumption | assumption].
Qed.

Section StableOrder.

Variable catalog : list string.

Lemma stable_insert_ordered (x : string * R) (l : Series) :
  StronglySorted (score_then_catalog catalog) l ->
  Forall (fun z => before_in catalog (fst x) (fst z)) l ->
  StronglySorted (score_then_catalog catalog) (insert_by Rltb x l).
Proof.
  induction 1 as [|y l Hl IH Hy]; intros Hx; simpl.
  - repeat constructor.
  - inversion Hx as [|? ? Hxy Hxl]; subst.
    unfold Rltb at 1. destruct (Rlt_dec (snd x) (snd y)) as [Hlt|Hge].
    + constructor; [now apply IH|].
      rewrite (insert_by_perm Rltb x l). constructor; [now left | assumption].
    + constructor; [now constructor|].
      constructor; [destruct (Rle_lt_or_eq_dec (snd y) (snd x)); [lra|now left|right; auto]|].
      rewrite Forall_forall in *. intros z Hz.
      specialize (Hy z Hz). specialize (Hxl z Hz). unfold score_then_catalog in *.
      destruct (Rlt_dec (snd z) (snd x)); [now left|].
      right. split; [lra | assumption].
Qed.

Lemma stable_sort_ordered (s : Series) :
  StronglySorted (fun a b => before_in catalog (fst a) (fst b)) s ->
  StronglySorted (score_then_catalog catalog) (stable_sort_values s).
Proof.
  unfold stable_sort_values, insertion_sort.
  induction 1 as [|x s _ IH Hx]; simpl; [constructor|].
  apply stable_insert_ordered; [assumption|].
  now rewrite (insertion_sort_perm Rltb s).
Qed.

End StableOrder.

Lemma merge_row_single (products : list Product.t) (x : string * R) :
  NoDup (catalog products) -> In (fst x) (catalog products) ->
  exists r, merge_row products x = [r] /\ rec_product r = fst x /\ rec_score r = snd x.
Proof.
  intros Hnd Hin. unfold merge_row.
  pose proof (one_product_row (fst x) products Hnd Hin) as H1.
  destruct (filter _ products) as [|m [|m' ms]]; try discriminate.
  eexists. simpl. repeat split.
Qed.

Lemma merge_left_ordered (products : list Product.t) (recs : Series) :
  NoDup (catalog products) ->
  (forall x, In x recs -> In (fst x) (catalog products)) ->
  StronglySorted (score_then_catalog (catalog products)) recs ->
  StronglySorted (rec_score_then_catalog (catalog products))
                 (merge_left products recs).
Proof.
  intros Hnd Hin H. unfold merge_left.
  induction H as [|x l _ IH Hx]; simpl; [constructor|].
  destruct (merge_row_single products x Hnd (Hin x (or_introl eq_refl)))
    as (r & -> & Hp & Hs).
  simpl. constructor.
  - apply IH. intros y Hy. apply Hin. now right.
  - apply Forall_forall. intros b Hb. apply merge_left_In in Hb.
    rewrite Forall_forall in Hx. specialize (Hx _ Hb).
    unfold rec_score_then_catalog, score_then_catalog in *.
    simpl in Hx. now rewrite Hp, Hs.
Qed.

Lemma stable_ties_in_catalog_order
    (ratings : list Rating.t) (products : list Product.t)
    (u : string) (alpha : R) (top_n : Z)
    (price_limit : option R) (category : option string)
    (out : list Recommendation) :
  NoDup (catalog products) ->
  hybrid_recommend ratings products stable_kind u alpha top_n price_limit category
  = inr out ->
  ties_in_catalog_order (catalog products) out.
Proof.
  intros Hnd Hrun.
  destruct (in_dec string_dec u (users ratings)) as [Hu|Hu];
    [|rewrite hybrid_recommend_unknown in Hrun by assumption; discriminate].
  rewrite hybrid_recommend_closed in Hrun by assumption. injection Hrun as <-.
  assert (Hs : StronglySorted (rec_score_then_catalog (catalog products))
                 (apply_filters price_limit category
                    (merge_left products
                       (ranked ratings products stable_kind u alpha top_n)))).
  { unfold apply_filters.
    assert (Hm : StronglySorted (rec_score_then_catalog (catalog products))
                   (merge_left products
                      (ranked ratings products stable_kind u alpha top_n))).
    { apply merge_left_ordered; [assumption| |].
      - intros x Hx. apply ranked_In in Hx. unfold unrated in Hx.
        now apply filter_In in Hx.
      - unfold ranked. apply head_sorted. simpl sort_values.
        apply stable_sort_ordered. apply StronglySorted_map. simpl.
        unfold unrated. apply StronglySorted_filter. now apply catalog_order. }
    destruct category, price_limit; repeat apply StronglySorted_filter; exact Hm. }
  intros i j a b m n Hij Ha Hb Heq Hm Hn.
  destruct (StronglySorted_nth_error _ _ _ _ _ _ Hs Hij Ha Hb) as [Hlt|[_ Hbefore]];
    [lra|].
  destruct Hbefore as (m' & n' & Hm' & Hn' & Hlt). congruence.
Qed.

(** ** Equal scores under the default sort

    In the tie data set the eighteen products that user U1 did not rate
    all have score 0.  The default sort splits a range of eighteen values
    once, and the exchanges of that partition leave equal values in
    another order than the catalog's: with the portable routine the first
    five rows returned are P01, P02, P17, P16 and P15.  (A build of numpy
    that hands [argsort] to a vectorised routine may order the equal
    values in yet another way; the library promises none.) *)









(** Ranges of at most seventeen values go to the insertion sort alone,
    which moves no value past an equal one: the three equal scores of the
    small data set stay in catalog order. *)
Lemma demo_recommend_quicksort (alpha : R) :
  hybrid_recommend demo_ratings demo_products quicksort_kind "U1" alpha 5 None None
  = inr [mkRec "B" 0 (Some "Bellows") (Some "Tools") (Some 50) (Some "b.png");
         mkRec "C" 0 (Some "Chisel") (Some "Tools") (Some 20) (Some "c.png");
         mkRec "D" 0 (Some "Drill") (Some "Power") (Some 5) (Some "d.png")]%string.
Proof.
  rewrite hybrid_recommend_closed by apply demo_user.
  unfold ranked. rewrite demo_candidates. cbn [sort_values quicksort_kind].
  rewrite (quicksort_sort_values_ties _ [0; 1; 2]%nat);
    [reflexivity | repeat constructor | reflexivity | reflexivity].
Qed.

(** ** Different scores under the default sort

    In the second data set with the catalog A, C, B user U1 has the
    candidates C, of score 0, and B, of positive score: the sort has to
    put B first. *)











(** ** A product rated below zero

    The mask of [hybrid_recommend] is [rating > 0], under the comment
    "exclude already rated items".  In the signed data set user U1 rated
    product B with -2: B passes the mask and is the one recommendation. *)








(** ** The diagonal of the similarity matrices in binary64

    In the second data set user U2 has the rating vector (4, 4).  Its norm
    is the square root of 32, which rounds; each entry divided by it is
    0.7071067811865475, and the sum of the two squares is
    0.9999999999999998, not 1. *)

Section DiagonalBinary64.

Import PrimFloat.

Lemma overlap_user_similarity64 :
  at_ (F64.user_similarity overlap_ratings64 overlap_products) "U2" "U2"
  = Some 0x1.ffffffffffffep-1%float.
Proof. vm_compute. reflexivity. Qed.

(** A rating of 1e200: the square is infinite, so is the norm, the
    normalised entry is 0 and so is the similarity of the vector with
    itself. *)
Lemma huge_user_similarity64 :
  at_ (F64.user_similarity huge_ratings64 overlap_products) "U1" "U1"
  = Some 0%float.
Proof. vm_compute. reflexivity. Qed.

(** C6 as stated fails on the diagonal.  User U2 of the second data set
    has the nonzero rating vector (4, 4), and the entry of the user
    similarity matrix at (U2, U2), computed in binary64 as the code does,
    is 0.9999999999999998, which is below 1. *)
Lemma unit_diagonal_counterexample :
  loc_row (F64.rating_matrix overlap_ratings64 overlap_products) "U2"
  = inr [4; 4]%float
  /\ at_ (F64.user_similarity overlap_ratings64 overlap_products) "U2" "U2"
     = Some 0x1.ffffffffffffep-1%float
  /\ (0x1.ffffffffffffep-1 <? 1)%float = true
  /\ at_ (F64.user_similarity overlap_ratings64 overlap_products) "U2" "U2"
     <> Some 1%float.
Proof.
  split; [vm_compute; reflexivity|].
  split; [exact overlap_user_similarity64|].
  split; [vm_compute; reflexivity|].
  rewrite overlap_user_similarity64. intros E.
  apply (f_equal (fun o => match o with
                           | Some x => (x <? 1)%float
                           | None => false
                           end)) in E.
  vm_compute in E. discriminate.
Qed.

End DiagonalBinary64.

(** * Further properties of the engine *)

(** ** The axes of the rating matrix *)

Definition string_lt (a b : string) : Prop := String.compare a b = Lt.

Lemma string_lt_trans (a b c : string) :
  string_lt a b -> string_lt b c -> string_lt a c.
Proof.
  unfold string_lt. intros H1 H2.
  apply OrderedTypeEx.String_as_OT.cmp_lt in H1, H2.
  apply OrderedTypeEx.String_as_OT.cmp_lt.
  eapply OrderedTypeEx.String_as_OT.lt_trans; eassumption.
Qed.

Lemma string_lt_irrefl (a : string) : ~ string_lt a a.
Proof.
  unfold string_lt. pose proof (String.compare_antisym a a) as H.
  destruct (String.compare a a); simpl in H; congruence.
Qed.

Lemma insert_unique_sorted (s : string) (l : list string) :
  StronglySorted string_lt l -> StronglySorted string_lt (insert_unique s l).
Proof.
  induction 1 as [|x l Hl IH Hx]; simpl.
  - repeat constructor.
  - destruct (String.compare s x) eqn:E.
    + now constructor.
    + constructor; [now constructor|]. constructor; [exact E|].
      rewrite Forall_forall in *. intros z Hz.
      apply (string_lt_trans s x z); [exact E | now apply Hx].
    + constructor; [assumption|].
      rewrite Forall_forall in *. intros z Hz.
      apply insert_unique_In in Hz. destruct Hz as [->|Hz]; [|now apply Hx].
      unfold string_lt. rewrite String.compare_antisym, E. reflexivity.
Qed.

Lemma sorted_unique_sorted (l : list string) :
  StronglySorted string_lt (sorted_unique l).
Proof.
  unfold sorted_unique. induction l as [|x l IH]; simpl; [constructor|].
  now apply insert_unique_sorted.
Qed.

Lemma sorted_NoDup (l : list string) : StronglySorted string_lt l -> NoDup l.
Proof.
  induction 1 as [|x l _ IH Hx]; constructor; [|assumption].
  intros Hin. rewrite Forall_forall in Hx.
  exact (string_lt_irrefl x (Hx x Hin)).
Qed.

(** X1. The rows of the rating matrix are the users that have at least one
    rating record, each once, in ascending order of their labels; the
    columns are the product ids of the catalog, in catalog order, rated or
    not. *)
Theorem rating_matrix_axes (ratings : list Rating.t) (products : list Product.t) :
  (forall u, In u (index (rating_matrix ratings products))
             <-> exists r, In r ratings /\ Rating.user r = u)
  /\ StronglySorted string_lt (index (rating_matrix ratings products))
  /\ NoDup (index (rating_matrix ratings products))
  /\ columns (rating_matrix ratings products) = map Product.product products.
Proof.
  rewrite rating_matrix_index. unfold users.
  split; [|split; [|split]].
  - intros u. rewrite sorted_unique_In, in_map_iff.
    split; intros (r & H1 & H2); exists r; auto.
  - apply sorted_unique_sorted.
  - apply sorted_NoDup, sorted_unique_sorted.
  - reflexivity.
Qed.






(** X3. What [reindex] and [fillna] do to the pivot: a cell of a catalog
    product the user has no record for is 0, and a product that is rated but
    not in the catalog has no column at all. *)
Theorem missing_and_foreign_cells
    (ratings : list Rating.t) (products : list Product.t) (u p : string) :
  (In u (index (rating_matrix ratings products)) ->
   In p (map Product.product products) ->
   group ratings u p = [] ->
   at_ (rating_matrix ratings products) u p = Some 0)
  /\ (~ In p (map Product.product products) ->
      at_ (rating_matrix ratings products) u p = None).
Proof.
  split.
  - intros Hu Hp Hg. rewrite at_rating_matrix by assumption.
    unfold cell. now rewrite Hg.
  - intros Hp.
    destruct (at_ (rating_matrix ratings products) u p) as [r|] eqn:E;
      [|reflexivity].
    apply at_rating_matrix_inv in E. tauto.
Qed.

(** ** The user-based score and the blend *)

(** The user-based score of product [p] in words: the sum over the other
    users [v] of [sim v * rating v p], divided by the sum over the other
    users of [sim v], plus epsilon. *)
Definition spec_user_based_score (sim : string -> R) (rating : string -> string -> R)
    (other_users : list string) (p : string) : R :=
  Vec.sum (map (fun v => sim v * rating v p) other_users)
  / (Vec.sum (map sim other_users) + 1e-9).

Lemma index_of_not_In (k : string) (l : list string) :
  ~ In k l -> index_of k l = None.
Proof.
  induction l as [|x l IH]; simpl; intros H; [reflexivity|].
  destruct (String.eqb x k) eqn:E.
  - apply String.eqb_eq in E. exfalso. apply H. now left.
  - rewrite IH by (intros Hin; apply H; now right). reflexivity.
Qed.

(** X6. For a user of the rating matrix, the user-based score of each
    product is the similarity-weighted sum of the other users' ratings of
    it, divided by the sum of those similarities plus epsilon; the user's
    own row takes no part. *)
Theorem user_based_score_formula
    (ratings : list Rating.t) (products : list Product.t) (u : string) :
  In u (index (rating_matrix ratings products)) ->
  user_based_score ratings products u
  = inr (map (fun p =>
               (p, spec_user_based_score
                     (fun v => value_or_zero (at_ (user_similarity ratings products) v u))
                     (fun v q => value_or_zero (at_ (rating_matrix ratings products) v q))
                     (filter (fun v => negb (String.eqb v u))
                             (index (rating_matrix ratings products)))
                     p))
             (columns (rating_matrix ratings products))).
Proof.
  rewrite rating_matrix_index, rating_matrix_columns. intros Hu.
  rewrite user_based_score_closed by assumption. f_equal.
  apply map_ext_in. intros p Hp. f_equal.
  unfold user_score, spec_user_based_score, neighbour_weights, eps.
  fold (others ratings u). rewrite dot_map.
  f_equal; [f_equal | f_equal; f_equal]; apply map_ext_in; intros v Hv;
    apply others_incl in Hv.
  - now rewrite at_user_similarity, at_rating_matrix by assumption.
  - now rewrite at_user_similarity by assumption.
Qed.

(** X7. Called on their own with a user that is not in the rating matrix,
    the two score functions fail with a [KeyError] for that user, not with
    the [ValueError] of [get_hybrid_scores]. *)
Theorem score_functions_key_error
    (ratings : list Rating.t) (products : list Product.t) (u : string) :
  ~ In u (index (rating_matrix ratings products)) ->
  item_based_score ratings products u = inl (KeyError u)
  /\ user_based_score ratings products u = inl (KeyError u).
Proof.
  rewrite rating_matrix_index. intros Hu. split.
  - unfold item_based_score, loc_row.
    now rewrite rating_matrix_index, loc_not_In.
  - unfold user_based_score, get_column.
    change (columns (user_similarity ratings products)) with (users ratings).
    now rewrite index_of_not_In.
Qed.




(** X10. With a single user in the rating matrix there is nobody to
    compare with: the user-based score of every product is 0 and the hybrid
    score is the item-based score times [1 - alpha]. *)
Theorem single_user_scores
    (ratings : list Rating.t) (products : list Product.t) (u : string) (alpha : R) :
  index (rating_matrix ratings products) = [u] ->
  user_based_score ratings products u
  = inr (map (fun p => (p, 0)) (columns (rating_matrix ratings products)))
  /\ get_hybrid_scores ratings products u alpha
     = inr (map (fun p => (p, (1 - alpha) * item_score ratings products u p))
                (columns (rating_matrix ratings products))).
Proof.
  rewrite rating_matrix_index, rating_matrix_columns. intros Hidx.
  assert (Hu : In u (users ratings)) by (rewrite Hidx; now left).
  assert (Hz : forall p, user_score ratings products u p = 0).
  { intros p. unfold user_score, neighbour_weights, others.
    rewrite Hidx. simpl. rewrite String.eqb_refl. simpl. unfold Rdiv. ring. }
  split.
  - rewrite user_based_score_closed by assumption. f_equal.
    apply map_ext. intros p. now rewrite Hz.
  - rewrite get_hybrid_scores_closed by assumption. f_equal.
    apply map_ext. intros p. unfold hybrid_score. rewrite Hz. f_equal. ring.
Qed.

(** X11. A user whose row of the rating matrix is all zeros (all ratings
    are for products outside the catalog, or are 0) gets hybrid score 0
    for every product, whatever the weight. *)
Theorem zero_row_user_scores
    (ratings : list Rating.t) (products : list Product.t) (u : string) (alpha : R) :
  In u (index (rating_matrix ratings products)) ->
  (forall p r, at_ (rating_matrix ratings products) u p = Some r -> r = 0) ->
  get_hybrid_scores ratings products u alpha
  = inr (map (fun p => (p, 0)) (columns (rating_matrix ratings products))).
Proof.
  rewrite rating_matrix_index, rating_matrix_columns. intros Hu Hz.
  pose proof (user_vector_zeros ratings products u Hz Hu) as Hzero.
  rewrite get_hybrid_scores_closed by assumption. f_equal.
  apply map_ext. intros p. f_equal.
  unfold hybrid_score, item_score, user_score.
  rewrite (dot_zeros_r _ (user_vector ratings products u)) by assumption.
  rewrite dot_zeros_l; [unfold Rdiv; ring|].
  unfold neighbour_weights. apply Forall_map, Forall_forall.
  intros v _. now apply cosine_zeros_r.
Qed.

(** ** The recommendation list *)

Lemma filter_length_le {A} (f : A -> bool) (l : list A) :
  (List.length (filter f l) <= List.length l)%nat.
Proof. pose proof (filter_length_split f l). lia. Qed.

Lemma apply_filters_length (price_limit : option R) (category : option string)
    (recs : list Recommendation) :
  (List.length (apply_filters price_limit category recs) <= List.length recs)%nat.
Proof.
  unfold apply_filters. destruct category as [c|], price_limit as [lim|];
    repeat (etransitivity; [apply filter_length_le|]); reflexivity.
Qed.

Lemma head_length_any {A} (n : Z) (l : list A) :
  List.length (head n l)
  = if (0 <=? n)%Z then Nat.min (Z.to_nat n) (List.length l)
    else (List.length l - Z.to_nat (- n))%nat.
Proof.
  unfold head. destruct (0 <=? n)%Z; rewrite length_firstn; lia.
Qed.

Lemma ranked_labels (ratings : list Rating.t) (products : list Product.t)
    (kind : SortKind) (u : string) (alpha : R) (top_n : Z) (x : string * R) :
  In x (ranked ratings products kind u alpha top_n) ->
  In (fst x) (catalog products)
  /\ snd x = hybrid_score ratings products u alpha (fst x).
Proof.
  intros H. unfold ranked in H. apply head_incl in H.
  apply (Permutation_in _ (sort_values_perm kind _)) in H.
  apply in_map_iff in H. destruct H as (p & <- & Hp). simpl.
  unfold unrated in Hp. apply filter_In in Hp. tauto.
Qed.

Lemma merge_row_catalog (products : list Product.t) (x : string * R)
    (r : Recommendation) :
  In (fst x) (catalog products) -> In r (merge_row products x) ->
  exists pr,
    In pr products /\ Product.product pr = fst x
    /\ r = mkRec (fst x) (snd x) (Some (Product.product_name pr))
                 (Some (Product.category pr)) (Product.price pr)
                 (Some (Product.image pr)).
Proof.
  intros Hin Hr. unfold merge_row in Hr.
  destruct (filter _ products) as [|m ms] eqn:E.
  - exfalso. unfold catalog in Hin. apply in_map_iff in Hin.
    destruct Hin as (pr & Hp & Hpr).
    assert (Hf : In pr (filter (fun p => String.eqb (Product.product p) (fst x))
                               products)).
    { apply filter_In. split; [assumption|]. now apply String.eqb_eq. }
    rewrite E in Hf. contradiction.
  - apply in_map_iff in Hr. destruct Hr as (pr & <- & Hpr).
    rewrite <- E in Hpr. apply filter_In in Hpr. destruct Hpr as [Hpr He].
    apply String.eqb_eq in He. exists pr. auto.
Qed.

(** X12. With unique product ids and a non-negative [top_n],
    [hybrid_recommend] returns at most [top_n] rows, whatever the weight and
    the filters. *)
Theorem recommend_at_most_top_n
    (ratings : list Rating.t) (products : list Product.t) (kind : SortKind)
    (u : string) (alpha : R) (top_n : Z)
    (price_limit : option R) (category : option string)
    (out : list Recommendation) :
  NoDup (map Product.product products) ->
  (0 <= top_n)%Z ->
  hybrid_recommend ratings products kind u alpha top_n price_limit category = inr out ->
  (Z.of_nat (List.length out) <= top_n)%Z.
Proof.
  intros Hnd Hn Hrun.
  destruct (in_dec string_dec u (users ratings)) as [Hu|Hu];
    [|rewrite hybrid_recommend_unknown in Hrun by assumption; discriminate].
  rewrite hybrid_recommend_closed in Hrun by assumption. injection Hrun as <-.
  pose proof (apply_filters_length price_limit category
                (merge_left products (ranked ratings products kind u alpha top_n)))
    as Hle.
  rewrite merge_left_length, ranked_length in Hle; try assumption.
  - lia.
  - intros x Hx. now apply ranked_labels in Hx.
Qed.

(** X13. Every returned row is a catalog product, shown with the hybrid
    score [get_hybrid_scores] gives it and with the name, category, price
    and image of a product record of that id: the left merge leaves no row
    without metadata. *)
Theorem recommendation_provenance
    (ratings : list Rating.t) (products : list Product.t) (kind : SortKind)
    (u : string) (alpha : R) (top_n : Z)
    (price_limit : option R) (category : option string)
    (out : list Recommendation) (r : Recommendation) :
  hybrid_recommend ratings products kind u alpha top_n price_limit category = inr out ->
  In r out ->
  (exists hybrid, get_hybrid_scores ratings products u alpha = inr hybrid
                  /\ In (rec_product r, rec_score r) hybrid)
  /\ exists pr,
       In pr products /\ Product.product pr = rec_product r
       /\ rec_product_name r = Some (Product.product_name pr)
       /\ rec_category r = Some (Product.category pr)
       /\ rec_price r = Product.price pr
       /\ rec_image r = Some (Product.image pr).
Proof.
  intros Hrun Hin.
  destruct (in_dec string_dec u (users ratings)) as [Hu|Hu];
    [|rewrite hybrid_recommend_unknown in Hrun by assumption; discriminate].
  rewrite hybrid_recommend_closed in Hrun by assumption. injection Hrun as <-.
  apply apply_filters_incl in Hin. unfold merge_left in Hin.
  apply in_flat_map in Hin. destruct Hin as (x & Hx & Hr).
  apply ranked_labels in Hx. destruct Hx as [Hcat Hscore].
  destruct (merge_row_catalog products x r Hcat Hr) as (pr & Hpr & Hid & ->).
  simpl. split.
  - eexists. split; [now apply get_hybrid_scores_closed|].
    apply in_map_iff. exists (fst x). split; [now rewrite Hscore | assumption].
  - exists pr. repeat split; assumption.
Qed.

(** X14. The filters keep exactly the rows of the truncated ranking that
    pass them: a row is returned if and only if it is among the first
    [top_n] ranked candidates and, when a price limit is given, has a price
    and that price is at most the limit, and, when a category is given, has
    exactly that category.  A product without a price is never returned
    under a price limit. *)
Theorem filters_exact
    (ratings : list Rating.t) (products : list Product.t) (kind : SortKind)
    (u : string) (alpha : R) (top_n : Z)
    (price_limit : option R) (category : option string)
    (top out : list Recommendation) (r : Recommendation) :
  top_ranked ratings products kind u alpha top_n = inr top ->
  hybrid_recommend ratings products kind u alpha top_n price_limit category = inr out ->
  (In r out <->
   In r top
   /\ (forall lim, price_limit = Some lim -> exists x, rec_price r = Some x /\ x <= lim)
   /\ (forall c, category = Some c -> rec_category r = Some c)).
Proof.
  intros Htop Hrun. unfold hybrid_recommend in Hrun. rewrite Htop in Hrun.
  unfold bind, ret in Hrun. injection Hrun as <-.
  apply apply_filters_In.
Qed.

Lemma NoDup_firstn {A} (n : nat) (l : list A) : NoDup l -> NoDup (firstn n l).
Proof.
  intros H. rewrite <- (firstn_skipn n l) in H. now apply NoDup_app_remove_r in H.
Qed.

Lemma NoDup_map_filter {A B} (f : A -> B) (g : A -> bool) (l : list A) :
  NoDup (map f l) -> NoDup (map f (filter g l)).
Proof.
  induction l as [|x l IH]; simpl; intros H; [constructor|].
  inversion H as [|? ? Hx Hl]; subst.
  destruct (g x); simpl; [|now apply IH].
  constructor; [|now apply IH].
  intros Hin. apply Hx. apply in_map_iff in Hin. destruct Hin as (y & Hy & Hin).
  apply filter_In in Hin. apply in_map_iff. exists y. tauto.
Qed.

Lemma merge_left_products (products : list Product.t) (recs : Series) :
  NoDup (catalog products) ->
  (forall x, In x recs -> In (fst x) (catalog products)) ->
  map rec_product (merge_left products recs) = map fst recs.
Proof.
  intros Hnd. unfold merge_left.
  induction recs as [|x recs IH]; intros H; simpl; [reflexivity|].
  destruct (merge_row_single products x Hnd (H x (or_introl eq_refl)))
    as (r & -> & Hp & _).
  simpl. rewrite Hp, IH by (intros y Hy; apply H; now right). reflexivity.
Qed.

(** X15. With unique product ids no product appears twice in the returned
    list. *)
Theorem recommendations_distinct
    (ratings : list Rating.t) (products : list Product.t) (kind : SortKind)
    (u : string) (alpha : R) (top_n : Z)
    (price_limit : option R) (category : option string)
    (out : list Recommendation) :
  NoDup (map Product.product products) ->
  hybrid_recommend ratings products kind u alpha top_n price_limit category = inr out ->
  NoDup (map rec_product out).
Proof.
  intros Hnd Hrun.
  destruct (in_dec string_dec u (users ratings)) as [Hu|Hu];
    [|rewrite hybrid_recommend_unknown in Hrun by assumption; discriminate].
  rewrite hybrid_recommend_closed in Hrun by assumption. injection Hrun as <-.
  assert (Hm : NoDup (map rec_product
                        (merge_left products
                           (ranked ratings products kind u alpha top_n)))).
  { rewrite merge_left_products; [|assumption|].
    - unfold ranked, head.
      assert (Hs : NoDup (map fst (sort_values kind
                     (map (fun p => (p, hybrid_score ratings products u alpha p))
                          (unrated ratings products u))))).
      { eapply Permutation_NoDup.
        - apply Permutation_map, Permutation_sym, sort_values_perm.
        - rewrite map_map. simpl. rewrite map_id.
          unfold unrated. now apply NoDup_filter. }
      destruct (0 <=? top_n)%Z; rewrite <- firstn_map; now apply NoDup_firstn.
    - intros x Hx. now apply ranked_labels in Hx. }
  unfold apply_filters.
  destruct category, price_limit; repeat apply NoDup_map_filter; exact Hm.
Qed.

(** X16. How many rows come back when no filter is given and product ids
    are unique: the smaller of [top_n] and the number of candidates for a
    non-negative [top_n] (none for 0), and for a negative [top_n] all
    candidates but the last [- top_n] of the ranking, without any error. *)
Theorem recommend_count
    (ratings : list Rating.t) (products : list Product.t) (kind : SortKind)
    (u : string) (alpha : R) (top_n : Z) :
  NoDup (map Product.product products) ->
  In u (index (rating_matrix ratings products)) ->
  exists out,
    hybrid_recommend ratings products kind u alpha top_n None None = inr out
    /\ List.length out
       = if (0 <=? top_n)%Z
         then Nat.min (Z.to_nat top_n) (List.length (unrated ratings products u))
         else (List.length (unrated ratings products u) - Z.to_nat (- top_n))%nat.
Proof.
  rewrite rating_matrix_index. intros Hnd Hu.
  eexists. split; [now apply hybrid_recommend_closed|].
  unfold apply_filters. rewrite merge_left_length; [|assumption|].
  - unfold ranked. rewrite head_length_any.
    now rewrite (Permutation_length (sort_values_perm kind _)), length_map.
  - intros x Hx. now apply ranked_labels in Hx.
Qed.

(** ** Rearrangements *)

Lemma Permutation_filter {A} (f : A -> bool) (l m : list A) :
  Permutation l m -> Permutation (filter f l) (filter f m).
Proof.
  induction 1 as [|x l m _ IH|x y l|l m n _ IH1 _ IH2]; simpl.
  - constructor.
  - destruct (f x); [now constructor | assumption].
  - destruct (f x), (f y); try reflexivity. apply perm_swap.
  - now transitivity (filter f m).
Qed.

(** * The page (app.py) *)

(** [int(x)] of a float: its integer part, rounded toward zero. *)
Definition py_int (x : R) : Z := if Rle_dec 0 x then Zfloor x else Zceil x.

(** The number of stars printed next to a score. *)
Definition stars (score : R) : Z := Z.min 5 (Z.max 1 (py_int score)).

(** The sidebar: a maximum price of 0 and the category entry "All" mean no
    filter. *)
Definition sidebar_price_limit (price_limit : R) : option R :=
  if Req_dec_T price_limit 0 then None else Some price_limit.

Definition sidebar_category (cat : string) : option string :=
  if String.eqb cat "All" then None else Some cat.

(** What the page keeps between two runs. *)
Record Session : Type := mkSession {
  session_recs : option (list Recommendation);
  session_scores : option Series
}.

Definition initial_session : Session := mkSession None None.

Section Page.

Variable ratings : list Rating.t.
Variable products : list Product.t.
Variable kind : SortKind.

(** The Recommend button. *)
Definition click_recommend (user : string) (alpha : R) (top_n : Z)
    (price_limit : R) (cat : string) : result Session :=
  recs <- hybrid_recommend ratings products kind user alpha top_n
            (sidebar_price_limit price_limit) (sidebar_category cat) ;;
  scores <- get_hybrid_scores ratings products user alpha ;;
  ret (mkSession (Some recs) (Some scores)).

(** The page stops on its prompt when there is no list or an empty one. *)
Definition shows_prompt (s : Session) : bool :=
  match session_recs s with
  | None => true
  | Some [] => true
  | Some (_ :: _) => false
  end.

(** The bars of the score chart. *)
Definition chart_scores (scores : Series) (user : string) : result Series :=
  user_ratings <- loc_row (rating_matrix ratings products) user ;;
  ret (head 20 (sort_values kind (candidates scores user_ratings))).

(** The table of similar users. *)
Definition similar_users_table (user : string) : result Series :=
  sims <- get_column (user_similarity ratings products) user ;;
  ret (head 10 (drop user (sort_values kind sims))).

End Page.

Lemma py_int_clamped (s : R) : Z.max 1 (py_int s) = Z.max 1 (Zfloor s).
Proof.
  unfold py_int. destruct (Rle_dec 0 s) as [H|H]; [reflexivity|].
  pose proof (Zceil_bound s) as [Hc _]. pose proof (Zfloor_bound s) as [Hf _].
  assert (Zceil s < 1)%Z by (apply lt_IZR; lra).
  assert (Zfloor s < 0)%Z by (apply lt_IZR; lra).
  lia.
Qed.

(** X19. The star count of a score is its integer part brought into the
    range 1 to 5; rounding toward zero or down gives the same count.  A
    score below 2, negative ones included, shows one star, a score of 5 or
    more shows five, and a higher score never shows fewer stars. *)
Theorem star_rating (s : R) :
  (1 <= stars s <= 5)%Z
  /\ stars s = Z.min 5 (Z.max 1 (Zfloor s))
  /\ (s < 2 -> stars s = 1%Z)
  /\ (5 <= s -> stars s = 5%Z)
  /\ (forall t, s <= t -> (stars s <= stars t)%Z).
Proof.
  unfold stars. rewrite py_int_clamped.
  pose proof (Zfloor_bound s) as [Hf1 Hf2].
  split; [lia|]. split; [reflexivity|]. split; [|split].
  - intros H. assert (Zfloor s < 2)%Z by (apply lt_IZR; lra). lia.
  - intros H. assert (5 <= Zfloor s)%Z by (apply Zfloor_lub; exact H). lia.
  - intros t Ht. rewrite py_int_clamped.
    pose proof (Zfloor_le s t Ht). lia.
Qed.

Lemma no_price_no_row (lim : R) (recs : list Recommendation) :
  Forall (fun r => rec_price r = None) recs -> filter (price_within lim) recs = [].
Proof.
  induction 1 as [|r recs Hr _ IH]; simpl; [reflexivity|].
  unfold price_within at 1. now rewrite Hr.
Qed.

(** X20. When no product has a price, which is how the loader leaves a
    products file without a price column, a click on Recommend with a
    non-zero maximum price succeeds with an empty list, and the page shows
    the same prompt as before any click. *)
Theorem no_price_column_prompt
    (ratings : list Rating.t) (products : list Product.t) (kind : SortKind)
    (user : string) (alpha : R) (top_n : Z) (price_limit : R) (cat : string) :
  Forall (fun p => Product.price p = None) products ->
  In user (index (rating_matrix ratings products)) ->
  price_limit <> 0 ->
  exists s,
    click_recommend ratings products kind user alpha top_n price_limit cat = inr s
    /\ session_recs s = Some []
    /\ shows_prompt s = true
    /\ shows_prompt initial_session = true.
Proof.
  rewrite rating_matrix_index. intros Hnone Hu Hp.
  unfold click_recommend.
  rewrite hybrid_recommend_closed, get_hybrid_scores_closed by assumption.
  unfold bind, ret, sidebar_price_limit.
  destruct (Req_dec_T price_limit 0) as [E|_]; [contradiction|].
  assert (Hempty : apply_filters (Some price_limit) (sidebar_category cat)
                     (merge_left products
                        (ranked ratings products kind user alpha top_n)) = []).
  { unfold apply_filters. rewrite no_price_no_row.
    - now destruct (sidebar_category cat).
    - apply Forall_forall. intros r Hr.
      unfold merge_left in Hr. apply in_flat_map in Hr. destruct Hr as (x & Hx & Hr).
      apply ranked_labels in Hx. destruct Hx as [Hcat _].
      destruct (merge_row_catalog products x r Hcat Hr) as (pr & Hpr & _ & ->).
      simpl. rewrite Forall_forall in Hnone. now apply Hnone. }
  rewrite Hempty. eexists. split; [reflexivity|]. simpl. auto.
Qed.

Lemma merge_left_pairs (products : list Product.t) (recs : Series) :
  NoDup (catalog products) ->
  (forall x, In x recs -> In (fst x) (catalog products)) ->
  map (fun r => (rec_product r, rec_score r)) (merge_left products recs) = recs.
Proof.
  intros Hnd. unfold merge_left.
  induction recs as [|x recs IH]; intros H; simpl; [reflexivity|].
  destruct (merge_row_single products x Hnd (H x (or_introl eq_refl)))
    as (r & -> & Hp & Hs).
  simpl. rewrite Hp, Hs, IH by (intros y Hy; apply H; now right).
  now destruct x.
Qed.

Lemma head_head {A} (n m : Z) (l : list A) :
  (0 <= n <= m)%Z -> head n (head m l) = head n l.
Proof.
  intros H. unfold head.
  assert (Hn : (0 <=? n)%Z = true) by (apply Z.leb_le; lia).
  assert (Hm : (0 <=? m)%Z = true) by (apply Z.leb_le; lia).
  rewrite Hn, Hm, firstn_firstn. f_equal. lia.
Qed.

(** X21. After a click, the chart drawn for the same user shows the
    ranking the recommendations were taken from: with [top_n] between 0 and
    20 every recommended product is one of its bars, with the same score,
    and with unique product ids and no filter (maximum price 0, category
    "All") the recommendations are exactly its first [top_n] bars, in
    order. *)
Theorem chart_matches_recommendations
    (ratings : list Rating.t) (products : list Product.t) (kind : SortKind)
    (user : string) (alpha : R) (top_n : Z) (price_limit : R) (cat : string)
    (s : Session) :
  (0 <= top_n <= 20)%Z ->
  click_recommend ratings products kind user alpha top_n price_limit cat = inr s ->
  exists recs scores chart,
    session_recs s = Some recs /\ session_scores s = Some scores
    /\ chart_scores ratings products kind scores user = inr chart
    /\ (forall r, In r recs -> In (rec_product r, rec_score r) chart)
    /\ (NoDup (map Product.product products) -> price_limit = 0 -> cat = "All"%string ->
        map (fun r => (rec_product r, rec_score r)) recs = head top_n chart).
Proof.
  intros Hn Hclick.
  destruct (in_dec string_dec user (users ratings)) as [Hu|Hu].
  2:{ unfold click_recommend in Hclick.
      rewrite hybrid_recommend_unknown in Hclick by assumption. discriminate. }
  unfold click_recommend in Hclick.
  rewrite hybrid_recommend_closed, get_hybrid_scores_closed in Hclick by assumption.
  unfold bind, ret in Hclick. injection Hclick as <-.
  do 3 eexists. split; [reflexivity|]. split; [reflexivity|].
  unfold chart_scores. rewrite loc_row_rating_matrix by assumption.
  unfold bind, ret. rewrite candidates_closed.
  split; [reflexivity|].
  assert (Hprefix : ranked ratings products kind user alpha top_n
                    = head top_n
                        (head 20 (sort_values kind
                           (map (fun p => (p, hybrid_score ratings products user alpha p))
                                (unrated ratings products user))))).
  { unfold ranked. now rewrite head_head. }
  split.
  - intros r Hr. apply apply_filters_incl, merge_left_In in Hr.
    rewrite Hprefix in Hr. now apply head_incl in Hr.
  - intros Hnd -> ->. unfold sidebar_price_limit, sidebar_category.
    destruct (Req_dec_T 0 0) as [_|E]; [|contradiction].
    simpl. rewrite merge_left_pairs; [exact Hprefix|assumption|].
    intros x Hx. now apply ranked_labels in Hx.
Qed.

Lemma others_length (u : string) (l : list string) :
  NoDup l -> In u l ->
  List.length (filter (fun v => negb (String.eqb v u)) l) = (List.length l - 1)%nat.
Proof.
  induction l as [|x l IH]; simpl; [contradiction|].
  intros Hnd Hin. inversion Hnd as [|? ? Hx Hl]; subst.
  destruct (String.eqb x u) eqn:E; simpl.
  - apply String.eqb_eq in E. subst x.
    assert (Hall : filter (fun v => negb (String.eqb v u)) l = l).
    { clear IH Hnd Hl Hin. induction l as [|y l IH]; simpl; [reflexivity|].
      destruct (String.eqb y u) eqn:E.
      - apply String.eqb_eq in E. subst. exfalso. apply Hx. now left.
      - simpl. f_equal. apply IH. intros H. apply Hx. now right. }
    rewrite Hall. lia.
  - destruct Hin as [->|Hin]; [rewrite String.eqb_refl in E; discriminate|].
    rewrite IH by assumption. destruct l; [contradiction | simpl; lia].
Qed.

(** X22. The table of similar users lists other users only, never the
    selected one, each with its similarity to the selected user as the
    user similarity matrix has it, in descending order of similarity; it
    has ten rows, or all the other users when there are fewer. *)
Theorem similar_users_table_rows
    (ratings : list Rating.t) (products : list Product.t) (kind : SortKind)
    (user : string) :
  In user (index (rating_matrix ratings products)) ->
  exists table,
    similar_users_table ratings products kind user = inr table
    /\ (forall v s, In (v, s) table ->
          v <> user
          /\ In v (index (rating_matrix ratings products))
          /\ at_ (user_similarity ratings products) v user = Some s)
    /\ StronglySorted score_ge table
    /\ List.length table
       = Nat.min 10 (List.length (index (rating_matrix ratings products)) - 1).
Proof.
  rewrite rating_matrix_index. intros Hu.
  unfold similar_users_table. rewrite user_similarity_column by assumption.
  unfold bind, ret. eexists. split; [reflexivity|].
  set (sims := map (fun v => (v, Sklearn.cosine (user_vector ratings products v)
                                                (user_vector ratings products user)))
                   (users ratings)).
  split; [|split].
  - intros v s H. apply head_incl in H. unfold drop in H.
    apply filter_In in H. destruct H as [H Hne]. simpl in Hne.
    apply (Permutation_in _ (sort_values_perm kind sims)) in H.
    unfold sims in H. apply in_map_iff in H. destruct H as (w & Heq & Hw).
    injection Heq as -> <-.
    split; [|split; [assumption|now apply at_user_similarity]].
    intros ->. rewrite String.eqb_refl in Hne. discriminate.
  - apply head_sorted. unfold drop. apply StronglySorted_filter.
    apply sort_values_desc.
  - rewrite head_length by lia. f_equal.
    unfold drop.
    rewrite (Permutation_length
               (Permutation_filter _ _ _ (sort_values_perm kind sims))).
    fold (drop user sims). unfold sims. rewrite drop_map, length_map.
    apply others_length; [|assumption].
    apply sorted_NoDup, sorted_unique_sorted.
Qed.

(** * The further properties at small data sets *)

(** One user, one rating. *)
Definition solo_ratings : list Rating.t := [ Rating.mk "U1" "A" 4 ].

(** The catalog of the first data set read from a file without a price
    column. *)
Definition unpriced_products : list Product.t :=
  [ Product.mk "A" "Anvil" "Tools" None "a.png";
    Product.mk "B" "Bellows" "Tools" None "b.png" ].

Lemma demo_ids_distinct : NoDup (map Product.product demo_products).
Proof.
  simpl. repeat constructor; simpl; intuition discriminate.
Qed.


Lemma missing_and_foreign_cells_witness :
  at_ (rating_matrix demo_ratings demo_products) "U1" "B" = Some 0
  /\ at_ (rating_matrix demo_ratings demo_products) "U2" "Z" = None.
Proof.
  split.
  - apply (missing_and_foreign_cells demo_ratings demo_products "U1" "B");
      [simpl; auto | simpl; auto | reflexivity].
  - apply (missing_and_foreign_cells demo_ratings demo_products "U2" "Z").
    simpl. intuition discriminate.
Defined.

Lemma user_based_score_formula_witness :
  user_based_score demo_ratings demo_products "U1"
  = inr (map (fun p =>
               (p, spec_user_based_score
                     (fun v => value_or_zero
                                 (at_ (user_similarity demo_ratings demo_products) v "U1"))
                     (fun v q => value_or_zero
                                   (at_ (rating_matrix demo_ratings demo_products) v q))
                     (filter (fun v => negb (String.eqb v "U1"))
                             (index (rating_matrix demo_ratings demo_products)))
                     p))
             (columns (rating_matrix demo_ratings demo_products))).
Proof.
  apply (user_based_score_formula demo_ratings demo_products "U1").
  simpl. auto.
Defined.

Lemma score_functions_key_error_witness :
  item_based_score demo_ratings demo_products "NO_SUCH_USER"
  = inl (KeyError "NO_SUCH_USER")
  /\ user_based_score demo_ratings demo_products "NO_SUCH_USER"
     = inl (KeyError "NO_SUCH_USER").
Proof.
  apply (score_functions_key_error demo_ratings demo_products "NO_SUCH_USER").
  simpl. intuition discriminate.
Defined.


Lemma single_user_scores_witness :
  user_based_score solo_ratings demo_products "U1"
  = inr [("A", 0); ("B", 0); ("C", 0); ("D", 0)]%string.
Proof.
  apply (single_user_scores solo_ratings demo_products "U1" (6 / 10)).
  reflexivity.
Defined.

Lemma zero_row_user_scores_witness :
  get_hybrid_scores demo_ratings demo_products "U2" (6 / 10)
  = inr [("A", 0); ("B", 0); ("C", 0); ("D", 0)]%string.
Proof.
  apply (zero_row_user_scores demo_ratings demo_products "U2" (6 / 10)).
  - simpl. auto.
  - intros p r H. apply at_rating_matrix_inv in H. destruct H as (_ & Hp & ->).
    simpl in Hp. destruct Hp as [<-|[<-|[<-|[<-|[]]]]]; reflexivity.
Defined.

Lemma recommend_at_most_top_n_witness :
  Z.le (Z.of_nat (List.length
          [mkRec "C" 0 (Some "Chisel") (Some "Tools") (Some 20) (Some "c.png")]%string))
       2%Z.
Proof.
  apply (recommend_at_most_top_n demo_ratings demo_products stable_kind
           "U1" (6 / 10) 2 (Some 30) None).
  - exact demo_ids_distinct.
  - lia.
  - apply demo_recommend_stable.
Defined.

Lemma recommendation_provenance_witness :
  (exists hybrid, get_hybrid_scores demo_ratings demo_products "U1" (6 / 10) = inr hybrid
                  /\ In ("C"%string, 0) hybrid)
  /\ exists pr,
       In pr demo_products /\ Product.product pr = "C"%string
       /\ Some "Chisel"%string = Some (Product.product_name pr)
       /\ Some "Tools"%string = Some (Product.category pr)
       /\ Some 20 = Product.price pr
       /\ Some "c.png"%string = Some (Product.image pr).
Proof.
  apply (recommendation_provenance demo_ratings demo_products stable_kind
           "U1" (6 / 10) 2 (Some 30) None
           [mkRec "C" 0 (Some "Chisel") (Some "Tools") (Some 20) (Some "c.png")]%string
           (mkRec "C" 0 (Some "Chisel") (Some "Tools") (Some 20) (Some "c.png"))%string).
  - apply demo_recommend_stable.
  - simpl. auto.
Defined.

Lemma filters_exact_witness :
  In (mkRec "C" 0 (Some "Chisel") (Some "Tools") (Some 20) (Some "c.png"))%string
     (merge_left demo_products
        (ranked demo_ratings demo_products stable_kind "U1" (6 / 10) 2))
  /\ (forall lim, Some 30 = Some lim -> exists x, Some 20 = Some x /\ x <= lim)
  /\ (forall c : string, None = Some c -> Some "Tools"%string = Some c).
Proof.
  apply (filters_exact demo_ratings demo_products stable_kind
           "U1" (6 / 10) 2 (Some 30) None
           (merge_left demo_products
              (ranked demo_ratings demo_products stable_kind "U1" (6 / 10) 2))
           [mkRec "C" 0 (Some "Chisel") (Some "Tools") (Some 20) (Some "c.png")]%string
           (mkRec "C" 0 (Some "Chisel") (Some "Tools") (Some 20) (Some "c.png"))%string).
  - apply top_ranked_closed, demo_user.
  - apply demo_recommend_stable.
  - simpl. auto.
Defined.

Lemma recommendations_distinct_witness :
  NoDup (map rec_product
           [mkRec "C" 0 (Some "Chisel") (Some "Tools") (Some 20) (Some "c.png")]%string).
Proof.
  apply (recommendations_distinct demo_ratings demo_products stable_kind
           "U1" (6 / 10) 2 (Some 30) None).
  - exact demo_ids_distinct.
  - apply demo_recommend_stable.
Defined.

Lemma recommend_count_witness :
  exists out,
    hybrid_recommend demo_ratings demo_products stable_kind "U1" (6 / 10) (-1) None None
    = inr out
    /\ List.length out = 2%nat.
Proof.
  destruct (recommend_count demo_ratings demo_products stable_kind "U1" (6 / 10) (-1))
    as (out & Hrun & Hlen).
  - exact demo_ids_distinct.
  - simpl. auto.
  - exists out. split; [exact Hrun|].
    rewrite Hlen, demo_unrated. reflexivity.
Defined.

Lemma star_rating_witness :
  stars (3 / 10) = 1%Z /\ stars 7 = 5%Z /\ (stars (36 / 10) <= stars 4)%Z.
Proof.
  split; [|split].
  - apply (star_rating (3 / 10)). lra.
  - apply (star_rating 7). lra.
  - apply (star_rating (36 / 10)). lra.
Defined.

Lemma no_price_column_prompt_witness :
  exists s,
    click_recommend demo_ratings unpriced_products stable_kind "U1" (6 / 10) 5 30 "All"
    = inr s
    /\ session_recs s = Some []
    /\ shows_prompt s = true
    /\ shows_prompt initial_session = true.
Proof.
  apply (no_price_column_prompt demo_ratings unpriced_products stable_kind
           "U1" (6 / 10) 5 30 "All").
  - repeat constructor.
  - simpl. auto.
  - lra.
Defined.

Lemma demo_click :
  exists s,
    click_recommend demo_ratings demo_products stable_kind "U1" (6 / 10) 2 0 "All"
    = inr s.
Proof.
  unfold click_recommend.
  rewrite hybrid_recommend_closed, get_hybrid_scores_closed by apply demo_user.
  eexists. reflexivity.
Defined.

Lemma chart_matches_recommendations_witness :
  exists s recs scores chart,
    click_recommend demo_ratings demo_products stable_kind "U1" (6 / 10) 2 0 "All"
    = inr s
    /\ session_recs s = Some recs /\ session_scores s = Some scores
    /\ chart_scores demo_ratings demo_products stable_kind scores "U1" = inr chart
    /\ map (fun r => (rec_product r, rec_score r)) recs = head 2 chart.
Proof.
  destruct demo_click as [s Hs].
  destruct (chart_matches_recommendations demo_ratings demo_products stable_kind
              "U1" (6 / 10) 2 0 "All" s)
    as (recs & scores & chart & Hr & Hsc & Hch & _ & Hprefix).
  - lia.
  - exact Hs.
  - exists s, recs, scores, chart. repeat split; try assumption.
    apply Hprefix; [exact demo_ids_distinct | reflexivity | reflexivity].
Defined.

Lemma similar_users_table_rows_witness :
  exists table,
    similar_users_table demo_ratings demo_products stable_kind "U1" = inr table
    /\ List.length table = 1%nat
    /\ forall v s, In (v, s) table -> v <> "U1"%string.
Proof.
  destruct (similar_users_table_rows demo_ratings demo_products stable_kind "U1")
    as (table & Ht & Hrows & _ & Hlen).
  - simpl. auto.
  - exists table. split; [exact Ht|]. split; [exact Hlen|].
    intros v s H. now apply (Hrows v s).
Defined.

(** * Completeness of the list, the price limit, and the test script *)

Lemma head_all {A} (n : Z) (l : list A) :
  (Z.of_nat (List.length l) <= n)%Z -> head n l = l.
Proof.
  intros H. unfold head.
  assert (Hn : (0 <=? n)%Z = true) by (apply Z.leb_le; lia).
  rewrite Hn. apply firstn_all2. lia.
Qed.

Lemma merge_left_covers (products : list Product.t) (recs : Series) (x : string * R) :
  In x recs -> exists r, In r (merge_left products recs) /\ rec_product r = fst x.
Proof.
  intros Hx. unfold merge_left.
  assert (H : exists r, In r (merge_row products x) /\ rec_product r = fst x).
  { unfold merge_row. destruct (filter _ products) as [|m ms].
    - eexists. split; [now left | reflexivity].
    - eexists. split; [now left | reflexivity]. }
  destruct H as (r & Hr & Hp). exists r. split; [|assumption].
  apply in_flat_map. eauto.
Qed.

(** X23. When [top_n] is at least the number of candidates and no filter
    is given, nothing is left out: the products returned are exactly the
    catalog products for which the user's rating is not positive. *)
Theorem unfiltered_list_complete
    (ratings : list Rating.t) (products : list Product.t) (kind : SortKind)
    (u : string) (alpha : R) (top_n : Z) (out : list Recommendation) :
  (Z.of_nat (List.length (unrated ratings products u)) <= top_n)%Z ->
  hybrid_recommend ratings products kind u alpha top_n None None = inr out ->
  forall p,
    In p (map rec_product out)
    <-> exists r, at_ (rating_matrix ratings products) u p = Some r /\ ~ 0 < r.
Proof.
  intros Hn Hrun p.
  destruct (in_dec string_dec u (users ratings)) as [Hu|Hu];
    [|rewrite hybrid_recommend_unknown in Hrun by assumption; discriminate].
  rewrite hybrid_recommend_closed in Hrun by assumption. injection Hrun as <-.
  unfold apply_filters, ranked.
  rewrite head_all
    by (now rewrite (Permutation_length (sort_values_perm kind _)), length_map).
  split.
  - intros H. apply in_map_iff in H. destruct H as (r & <- & Hr).
    apply merge_left_In in Hr.
    apply (Permutation_in _ (sort_values_perm kind _)) in Hr.
    apply in_map_iff in Hr. destruct Hr as (q & Heq & Hq). injection Heq as <- _.
    unfold unrated in Hq. apply filter_In in Hq. destruct Hq as [Hq Hm].
    apply negb_true_iff, Rgtb_false in Hm.
    exists (cell ratings u q). split; [now apply at_rating_matrix | assumption].
  - intros (r & Hat & Hr). apply at_rating_matrix_inv in Hat.
    destruct Hat as (_ & Hp & ->).
    assert (Hin : In (p, hybrid_score ratings products u alpha p)
                     (sort_values kind
                        (map (fun q => (q, hybrid_score ratings products u alpha q))
                             (unrated ratings products u)))).
    { apply (Permutation_in _ (Permutation_sym (sort_values_perm kind _))).
      apply in_map_iff. exists p. split; [reflexivity|].
      unfold unrated. apply filter_In. split; [assumption|].
      now apply negb_true_iff, Rgtb_false. }
    destruct (merge_left_covers products _ _ Hin) as (rec & Hrec & Hid).
    apply in_map_iff. exists rec. auto.
Qed.

(** X24. Raising the price limit never removes a recommendation: every
    row returned under a limit is returned under any higher limit, the other
    arguments being the same. *)
Theorem price_limit_monotone
    (ratings : list Rating.t) (products : list Product.t) (kind : SortKind)
    (u : string) (alpha : R) (top_n : Z) (category : option string)
    (lim lim' : R) (out out' : list Recommendation) (r : Recommendation) :
  lim <= lim' ->
  hybrid_recommend ratings products kind u alpha top_n (Some lim) category = inr out ->
  hybrid_recommend ratings products kind u alpha top_n (Some lim') category = inr out' ->
  In r out -> In r out'.
Proof.
  intros Hle Hrun Hrun' Hin.
  destruct (in_dec string_dec u (users ratings)) as [Hu|Hu];
    [|rewrite hybrid_recommend_unknown in Hrun by assumption; discriminate].
  rewrite hybrid_recommend_closed in Hrun, Hrun' by assumption.
  injection Hrun as <-. injection Hrun' as <-.
  apply apply_filters_In in Hin. apply apply_filters_In.
  destruct Hin as (H1 & H2 & H3). split; [assumption|]. split; [|assumption].
  intros l [= <-]. destruct (H2 lim eq_refl) as (x & Hx & Hxl).
  exists x. split; [assumption | lra].
Qed.

(** The call of the test script: user "U10", the default weight 0.6, five
    rows, no filter. *)
Definition test_recommend (ratings : list Rating.t) (products : list Product.t)
    (kind : SortKind) : result (list Recommendation) :=
  hybrid_recommend ratings products kind "U10" 0.6 5 None None.

(** X25. The test script fails with the unknown-user [ValueError] when
    user "U10" has no rating record; otherwise, with unique product ids, it
    prints five rows, or all the unrated products when they are fewer, in
    descending order of score. *)
Theorem test_script_outcome
    (ratings : list Rating.t) (products : list Product.t) (kind : SortKind) :
  ((forall r, In r ratings -> Rating.user r <> "U10"%string) ->
   test_recommend ratings products kind
   = inl (ValueError "User U10 not found in rating matrix."))
  /\ ((exists r, In r ratings /\ Rating.user r = "U10"%string) ->
      NoDup (map Product.product products) ->
      exists out,
        test_recommend ratings products kind = inr out
        /\ List.length out = Nat.min 5 (List.length (unrated ratings products "U10"))
        /\ StronglySorted rec_ge out).
Proof.
  unfold test_recommend. split.
  - intros H. apply hybrid_recommend_unknown.
    unfold users. rewrite sorted_unique_In, in_map_iff.
    intros (r & Hr & Hin). exact (H r Hin Hr).
  - intros (r & Hin & Hr) Hnd.
    assert (Hu : In "U10"%string (users ratings)).
    { unfold users. rewrite sorted_unique_In, in_map_iff. eauto. }
    eexists. split; [now apply hybrid_recommend_closed|]. split.
    + unfold apply_filters. rewrite merge_left_length; [|assumption|].
      * now rewrite ranked_length by lia.
      * intros x Hx. now apply ranked_labels in Hx.
    + apply apply_filters_sorted, merge_left_sorted, ranked_sorted.
Qed.

Lemma unfiltered_list_complete_witness :
  In "D"%string
     (map rec_product
        [mkRec "B" 0 (Some "Bellows") (Some "Tools") (Some 50) (Some "b.png");
         mkRec "C" 0 (Some "Chisel") (Some "Tools") (Some 20) (Some "c.png");
         mkRec "D" 0 (Some "Drill") (Some "Power") (Some 5) (Some "d.png")]%string).
Proof.
  apply (unfiltered_list_complete demo_ratings demo_products stable_kind
           "U1" (6 / 10) 5).
  - rewrite demo_unrated. simpl. lia.
  - apply demo_recommend_all.
  - exists 0. split; [reflexivity | lra].
Defined.

Lemma demo_recommend_stable_40 :
  exists out,
    hybrid_recommend demo_ratings demo_products stable_kind "U1" (6 / 10) 2 (Some 40) None
    = inr out.
Proof.
  rewrite hybrid_recommend_closed by apply demo_user. eexists. reflexivity.
Defined.

Lemma price_limit_monotone_witness :
  exists out,
    hybrid_recommend demo_ratings demo_products stable_kind "U1" (6 / 10) 2 (Some 40) None
    = inr out
    /\ In (mkRec "C" 0 (Some "Chisel") (Some "Tools") (Some 20) (Some "c.png"))%string out.
Proof.
  destruct demo_recommend_stable_40 as [out Hout].
  exists out. split; [exact Hout|].
  apply (price_limit_monotone demo_ratings demo_products stable_kind
           "U1" (6 / 10) 2 None 30 40
           [mkRec "C" 0 (Some "Chisel") (Some "Tools") (Some 20) (Some "c.png")]%string
           out).
  - lra.
  - apply demo_recommend_stable.
  - exact Hout.
  - simpl. auto.
Defined.

Lemma test_script_outcome_witness :
  test_recommend demo_ratings demo_products stable_kind
  = inl (ValueError "User U10 not found in rating matrix.").
Proof.
  apply (test_script_outcome demo_ratings demo_products stable_kind).
  intros r [<-|[<-|[<-|[]]]]; discriminate.
Defined.
